(** * sdk54-app: a shallow embedding of the recognition screen, the history
      stub, the native "heavy computation" module and the generic state
      machine, with the properties the specification states about them.

    Sources embedded here:
    - [ShazamScreen] (startRecording, stopRecording, getHistory, saveHistory)
      and [LibraryScreen] (loadHistory): the React Native screens;
    - [HeavyProcessor], [DataTransformer], [MatrixCalculator],
      [ComplexAlgorithms]: the Swift classes behind the native module;
    - [StateMachine]: the generic Swift state machine, whose observers are
      closures that may call back into it.

    Swift traps (integer overflow, division by zero, out-of-range
    conversions, malformed ranges) are results of type [Outcome]; React state
    and the JavaScript timer queue are explicit records, with the async
    functions of the screen taken in one step ([ShazamApp]) and at their
    awaits ([ShazamScreen]); IEEE binary64 arithmetic is modelled exactly on
    dyadic rationals. *)

From Stdlib Require Import ZArith Lia List Bool Ascii String.
From Stdlib Require Import Sorting.Sorted Sorting.Permutation.
From stdpp Require Import base option list sorting strings gmap pretty.

Local Open Scope Z_scope.

(** ** Swift run-time traps *)

Inductive Trap : Type :=
| ArithmeticOverflow      (* checked [+], [*] on a fixed-width integer *)
| DivisionByZero          (* integer [/] with a zero divisor *)
| ConversionOutOfRange    (* [Int(_: Double)] outside the range of [Int] *)
| InvalidRange.           (* [a..<b] with [b < a] *)

Inductive Outcome (A : Type) : Type :=
| Returned (a : A)
| Trapped (t : Trap).
Arguments Returned {A} a.
Arguments Trapped {A} t.

Definition obind {A B} (o : Outcome A) (k : A -> Outcome B) : Outcome B :=
  match o with
  | Returned a => k a
  | Trapped t => Trapped t
  end.

Notation "'let!' x ':=' o 'in' k" := (obind o (fun x => k))
  (at level 10, x name, o at level 100, k at level 200).

(** [Sequence.map] with a trapping body: elements are visited in order and
    the first trap aborts the whole call. *)
Fixpoint omap {A B} (f : A -> Outcome B) (l : list A) : Outcome (list B) :=
  match l with
  | [] => Returned []
  | x :: l' =>
      let! y := f x in
      let! ys := omap f l' in
      Returned (y :: ys)
  end.

(** [for i in range { s = body(s, i) }]. *)
Fixpoint for_in {St} (range : list Z) (body : St -> Z -> Outcome St) (s : St)
  : Outcome St :=
  match range with
  | [] => Returned s
  | i :: range' =>
      let! s' := body s i in
      for_in range' body s'
  end.

(** The same loop, also counting how many times the body ran to completion. *)
Fixpoint for_in_counting {St} (range : list Z) (body : St -> Z -> Outcome St)
    (s : St) (completed : nat) : nat * Outcome St :=
  match range with
  | [] => (completed, Returned s)
  | i :: range' =>
      match body s i with
      | Returned s' => for_in_counting range' body s' (S completed)
      | Trapped t => (completed, Trapped t)
      end
  end.

(** [a..<b] as a list; Swift traps when [b < a]. *)
Definition half_open_range (a b : Z) : Outcome (list Z) :=
  if b <? a then Trapped InvalidRange else Returned (seqZ a (b - a)).

(** ** Swift's 64-bit [Int] and 8-bit [UInt8] *)

Module SwiftInt.
Definition min : Z := - 2 ^ 63.
Definition max : Z := 2 ^ 63 - 1.
Definition fits (z : Z) : bool := (min <=? z) && (z <=? max).
Definition checked (z : Z) : Outcome Z :=
  if fits z then Returned z else Trapped ArithmeticOverflow.
Definition add (a b : Z) : Outcome Z := checked (a + b).
Definition mul (a b : Z) : Outcome Z := checked (a * b).
End SwiftInt.

Module UInt8.
Definition max : Z := 255.
Definition fits (z : Z) : bool := (0 <=? z) && (z <=? max).
(* [+]: traps on overflow *)
Definition add (a b : Z) : Outcome Z :=
  if fits (a + b) then Returned (a + b) else Trapped ArithmeticOverflow.
(* [&+], [&-]: wrap around *)
Definition wrapping_add (a b : Z) : Z := (a + b) mod 256.
Definition wrapping_sub (a b : Z) : Z := (a - b) mod 256.
(* [/]: traps on a zero divisor *)
Definition div (a b : Z) : Outcome Z :=
  if b =? 0 then Trapped DivisionByZero else Returned (a / b).
End UInt8.

(** ** IEEE 754 binary64 on finite values

    A finite double is the dyadic rational [mant * 2 ^ expo].  Every
    operation computes the exact result and rounds it to a 53-bit significand,
    ties to even.  The exponent is not bounded: all values that occur below
    have magnitude 0 or between [2 ^ -1074] and [2 ^ 72], where binary64 has
    no overflow and rounding never falls below the subnormal grid. *)

Module Binary64.
Record t : Type := mk { mant : Z; expo : Z }.

Definition prec : Z := 53.

(* [a / 2 ^ s] for [0 <= a], [0 < s], rounded to nearest, ties to even *)
Definition round_shift (a s : Z) : Z :=
  let q := Z.shiftr a s in
  let r := a - Z.shiftl q s in
  let half := Z.shiftl 1 (s - 1) in
  if r <? half then q
  else if half <? r then q + 1
  else if Z.even q then q else q + 1.

Definition round (m e : Z) : t :=
  let a := Z.abs m in
  let s := Z.log2 a + 1 - prec in
  if s <=? 0 then mk m e else mk (Z.sgn m * round_shift a s) (e + s).

Definition zero : t := mk 0 0.

(* [Double(_: Int)] *)
Definition of_int (z : Z) : t := round z 0.

Definition mul (x y : t) : t :=
  round (mant x * mant y) (expo x + expo y).

Definition add (x y : t) : t :=
  let e := Z.min (expo x) (expo y) in
  round (mant x * 2 ^ (expo x - e) + mant y * 2 ^ (expo y - e)) e.

(* [a / b * 2 ^ e] for [0 < b], correctly rounded: the quotient is taken
   with at least 64 bits and a sticky bit for the remainder *)
Definition round_quotient (a b e : Z) : t :=
  let k := Z.log2 b + 64 in
  let n := Z.abs a * 2 ^ k in
  let sticky := if n mod b =? 0 then 0 else 1 in
  round (Z.sgn a * (2 * (n / b) + sticky)) (e - k - 1).

(* [x / y] for a non-zero [y] *)
Definition div (x y : t) : t :=
  round_quotient (Z.sgn (mant y) * mant x) (Z.abs (mant y))
                 (expo x - expo y).

(* the decimal literal [num / den] *)
Definition of_decimal (num den : Z) : t := round_quotient num den 0.

Definition compare (x y : t) : comparison :=
  let e := Z.min (expo x) (expo y) in
  (mant x * 2 ^ (expo x - e)) ?= (mant y * 2 ^ (expo y - e)).

(* [x > y] *)
Definition gtb (x y : t) : bool :=
  match compare x y with Gt => true | _ => false end.

(* [Math.floor] / [floor], as an integer *)
Definition floor (x : t) : Z :=
  if 0 <=? expo x then mant x * 2 ^ expo x
  else mant x / 2 ^ (- expo x).

(* rounding toward zero, as an integer *)
Definition truncate (x : t) : Z :=
  if 0 <=? expo x then mant x * 2 ^ expo x
  else Z.quot (mant x) (2 ^ (- expo x)).

(* Swift's [Int(_: Double)]: traps when the truncated value is not an [Int] *)
Definition to_int (x : t) : Outcome Z :=
  let z := truncate x in
  if SwiftInt.fits z then Returned z else Trapped ConversionOutOfRange.
End Binary64.

(** ** HeavyProcessor *)

Module HeavyProcessor.
Import Binary64.

(* (0..<count).map { start + $0 * 7 } *)
Definition generateSequence (start count : Z) : Outcome (list Z) :=
  let! indices := half_open_range 0 count in
  omap (fun k => let! k7 := SwiftInt.mul k 7 in SwiftInt.add start k7)
       indices.

(* sequence.map { Double($0) * 3.14159 / 2.71828 } *)
Definition transformSequence (sequence : list Z) : list Binary64.t :=
  map (fun x => div (mul (of_int x) (of_decimal 314159 100000))
                    (of_decimal 271828 100000))
      sequence.

(* sequence.filter { $0 > Double(threshold) } *)
Definition filterSequence (sequence : list Binary64.t) (threshold : Z)
  : list Binary64.t :=
  List.filter (fun d => gtb d (of_int threshold)) sequence.

(* Int(sequence.reduce(0, +)) *)
Definition reduceSequence (sequence : list Binary64.t) : Outcome Z :=
  to_int (fold_left add sequence zero).

Definition complexCalculation (input iteration : Z) : Outcome Z :=
  let! intermediate1 := generateSequence input 100 in
  let intermediate2 := transformSequence intermediate1 in
  let intermediate3 := filterSequence intermediate2 iteration in
  reduceSequence intermediate3.

Definition processLargeDataset (value : Z) : Outcome Z :=
  let! range := half_open_range 0 1000 in
  for_in range complexCalculation value.

(* the same run, with the number of completed loop iterations *)
Definition processLargeDataset_counting (value : Z) : nat * Outcome Z :=
  for_in_counting (seqZ 0 1000) complexCalculation value 0%nat.
End HeavyProcessor.

(** ** DataTransformer *)

(** [bytes.reduce(initial, f)] with a trapping [f]. *)
Fixpoint oreduce {A B} (f : B -> A -> Outcome B) (l : list A) (acc : B)
  : Outcome B :=
  match l with
  | [] => Returned acc
  | x :: l' =>
      let! acc' := f acc x in
      oreduce f l' acc'
  end.

Module DataTransformer.
(* A Swift [String] is given by its UTF-8 code units, one [ascii] each. *)

(* Array(str.utf8) *)
Definition applyEncoding (str : string) : list Z :=
  map (fun c => Z.of_N (N_of_ascii c)) (list_ascii_of_string str).

(* bytes.map { ($0 &+ 7) ^ 42 } *)
Definition applyTransformation (bytes : list Z) : list Z :=
  map (fun b => Z.lxor (UInt8.wrapping_add b 7) 42) bytes.

(* UInt8(_:) of an integer: traps outside 0...255 *)
Definition to_UInt8 (z : Z) : Outcome Z :=
  if UInt8.fits z then Returned z else Trapped ConversionOutOfRange.

(* let sum = bytes.reduce(0, +)
   let average = UInt8(sum / bytes.count)
   return bytes.map { $0 &- average }
   [sum] is a [UInt8], summed with the trapping [+]; [sum / bytes.count] is
   the integer quotient of the sum by the element count. *)
Definition applyNormalization (bytes : list Z) : Outcome (list Z) :=
  let! sum := oreduce UInt8.add bytes 0 in
  let! quotient := UInt8.div sum (Z.of_nat (length bytes)) in
  let! average := to_UInt8 quotient in
  Returned (map (fun b => UInt8.wrapping_sub b average) bytes).

Definition hex_digit (d : Z) : ascii :=
  if d <? 10 then ascii_of_N (Z.to_N (48 + d))
  else ascii_of_N (Z.to_N (87 + d)).

(* String(format: "%02x", b) *)
Definition format_02x (b : Z) : string :=
  String (hex_digit (b / 16)) (String (hex_digit (b mod 16)) EmptyString).

(* bytes.map { String(format: "%02x", $0) }.joined() *)
Definition applyFormatting (bytes : list Z) : string :=
  fold_right String.append EmptyString (map format_02x bytes).

Definition transform (input : string) : Outcome string :=
  let step1 := applyEncoding input in
  let step2 := applyTransformation step1 in
  let! step3 := applyNormalization step2 in
  let step4 := applyFormatting step3 in
  Returned step4.
End DataTransformer.

(** ** MatrixCalculator

    The elementary functions of the C library are not modelled; the matrix
    code is read with them as parameters. *)

Section MatrixCalculator.
Variables sin cos tan sqrt log : Binary64.t -> Binary64.t.
Variable pow : Binary64.t -> Binary64.t -> Binary64.t.

Definition double_abs (x : Binary64.t) : Binary64.t :=
  Binary64.mk (Z.abs (Binary64.mant x)) (Binary64.expo x).

Definition double_sub (x y : Binary64.t) : Binary64.t :=
  Binary64.add x (Binary64.mk (- Binary64.mant y) (Binary64.expo y)).

(* let base = Double(row * col) / Double(size)
   return sin(base) * cos(base) + tan(base / 2.0) *)
Definition calculateElement (row col size : Z) : Outcome Binary64.t :=
  let! rc := SwiftInt.mul row col in
  let base := Binary64.div (Binary64.of_int rc) (Binary64.of_int size) in
  Returned (Binary64.add (Binary64.mul (sin base) (cos base))
                         (tan (Binary64.div base (Binary64.of_int 2)))).

(* pow(element, 2) + sqrt(abs(element)) - log(abs(element) + 1) *)
Definition transformElement (element : Binary64.t) : Binary64.t :=
  double_sub
    (Binary64.add (pow element (Binary64.of_int 2))
                  (sqrt (double_abs element)))
    (log (Binary64.add (double_abs element) (Binary64.of_int 1))).

Definition transformMatrix (matrix : list (list Binary64.t))
  : list (list Binary64.t) :=
  map (fun row => map transformElement row) matrix.

Definition generateMatrix (size : Z) : Outcome (list (list Binary64.t)) :=
  let actualSize := Z.min size 100 in
  let! rows := half_open_range 0 actualSize in
  let! matrix :=
    omap (fun i =>
            let! cols := half_open_range 0 actualSize in
            omap (fun j => calculateElement i j actualSize) cols)
         rows in
  Returned (transformMatrix matrix).
End MatrixCalculator.

(** ** ComplexAlgorithms: quickSort and mergeSort over a [Comparable] type *)

(** Swift's [Comparable] (which refines [Equatable]): the operators [<] and
    [==]; [>] is the protocol's default, [a > b = b < a]. *)
Class Comparable (T : Type) : Type := {
  lt : T -> T -> bool;
  eqb : T -> T -> bool
}.

Definition gt {T} `{Comparable T} (a b : T) : bool := lt b a.

(** The protocol's documented requirements: [==] is equality of values and
    [<] is a strict total order. *)
Class LawfulComparable (T : Type) `{Comparable T} : Prop := {
  eqb_spec : forall a b : T, eqb a b = true <-> a = b;
  lt_irrefl : forall a : T, lt a a = false;
  lt_trans : forall a b c : T, lt a b = true -> lt b c = true -> lt a c = true;
  lt_total : forall a b : T, lt a b = true \/ a = b \/ lt b a = true
}.

#[export] Instance Z_Comparable : Comparable Z :=
  {| lt := Z.ltb; eqb := Z.eqb |}.

(** Swift's [Double] as a [Comparable]: finite values, and NaN, which is
    neither less than nor equal to anything, itself included. *)
Inductive Double : Type :=
| NaN
| Finite (x : Binary64.t).

#[export] Instance Double_Comparable : Comparable Double :=
  {| lt a b := match a, b with
               | Finite x, Finite y => Binary64.gtb y x
               | _, _ => false
               end;
     eqb a b := match a, b with
                | Finite x, Finite y =>
                    match Binary64.compare x y with Eq => true | _ => false end
                | _, _ => false
                end |}.

Module ComplexAlgorithms.
Section Sorting.
Context {T : Type} `{Comparable T}.

(* The recursion is on sub-arrays, not structural: [fuel] bounds the call
   depth and [None] stands for a recursion that has not returned within it. *)
Fixpoint quickSort_rec (fuel : nat) (array : list T) : option (list T) :=
  match fuel with
  | O => None
  | S fuel' =>
      if (length array <=? 1)%nat then Some array
      else
        match array !! (length array / 2)%nat with
        | None => None
        | Some pivot =>
            let less := List.filter (fun x => lt x pivot) array in
            let equal := List.filter (fun x => eqb x pivot) array in
            let greater := List.filter (fun x => gt x pivot) array in
            match quickSort_rec fuel' less, quickSort_rec fuel' greater with
            | Some sorted_less, Some sorted_greater =>
                Some (sorted_less ++ equal ++ sorted_greater)
            | _, _ => None
            end
        end
  end.

Definition quickSort (array : list T) : option (list T) :=
  quickSort_rec (S (length array)) array.

(* The while loop of [merge] followed by the two [append(contentsOf:)]. *)
Fixpoint merge (left right : list T) : list T :=
  match left with
  | [] => right
  | l :: left' =>
      (fix merge_left (right : list T) : list T :=
         match right with
         | [] => left
         | r :: right' =>
             if lt l r then l :: merge left' right
             else r :: merge_left right'
         end) right
  end.

Fixpoint mergeSort_rec (fuel : nat) (array : list T) : option (list T) :=
  match fuel with
  | O => None
  | S fuel' =>
      if (length array <=? 1)%nat then Some array
      else
        let middle := (length array / 2)%nat in
        match mergeSort_rec fuel' (take middle array),
              mergeSort_rec fuel' (drop middle array) with
        | Some sorted_left, Some sorted_right =>
            Some (merge sorted_left sorted_right)
        | _, _ => None
        end
  end.

Definition mergeSort (array : list T) : option (list T) :=
  mergeSort_rec (S (length array)) array.
End Sorting.
End ComplexAlgorithms.

(** ** StateMachine

    [StateMachine] is a class, and its observers are closures that may hold
    the machine: a closure called by [send] can itself call [send],
    [addTransition] or [observe] before [send] returns.  The calls are nested
    without bound, so the methods that call closures take fuel; [None] is a
    computation that does not finish within it. *)

Module StateMachine.
Section StateMachine.
Context {State Event : Type}.
Context `{Countable State} `{Countable Event}.
(* The variables the closures capture, apart from the machine. *)
Context {Captured : Type}.

(* What the body of a closure [(State) -> Void] does with the machine it
   holds and the variables it captures. *)
Inductive Body : Type :=
| Return
| CallSend (event : Event) (k : bool -> Body)
| CallAddTransition (from : State) (event : Event) (to : State) (k : Body)
| CallObserve (observer : State -> Body) (k : Body)
| ReadCaptured (k : Captured -> Body)
| WriteCaptured (value : Captured) (k : Body).

(* [notified] records every call made to an observer, with the state it was
   given. *)
Record t : Type := mk {
  currentState : State;
  transitions : gmap State (gmap Event State);
  observers : list (State -> Body);
  notified : list ((State -> Body) * State)
}.

(* The machine object and the captured variables. *)
Record Store : Type := mkStore { machine : t; captured : Captured }.

(* init(initialState:) *)
Definition init (initialState : State) : t :=
  mk initialState ∅ [] [].

(* transitions[from]?[event] *)
Definition target (sm : t) (from : State) (event : Event) : option State :=
  match transitions sm !! from with
  | Some row => row !! event
  | None => None
  end.

Definition addTransition (from : State) (event : Event) (to : State)
    (sm : t) : t :=
  let row := match transitions sm !! from with
             | Some row => row
             | None => ∅
             end in
  mk (currentState sm) (<[from := <[event := to]> row]> (transitions sm))
     (observers sm) (notified sm).

Definition setCurrentState (state : State) (sm : t) : t :=
  mk state (transitions sm) (observers sm) (notified sm).

Definition appendObserver (observer : State -> Body) (sm : t) : t :=
  mk (currentState sm) (transitions sm) (observers sm ++ [observer])
     (notified sm).

Definition record_call (observer : State -> Body) (state : State) (sm : t)
  : t :=
  mk (currentState sm) (transitions sm) (observers sm)
     (notified sm ++ [(observer, state)]).

Definition with_machine (f : t -> t) (st : Store) : Store :=
  mkStore (f (machine st)) (captured st).

Section Methods.
(* running the body of a closure *)
Variable call : Body -> Store -> option Store.

(* $0(currentState): [currentState] is read when the observer is called *)
Definition notify (observer : State -> Body) (st : Store) : option Store :=
  let state := currentState (machine st) in
  call (observer state) (with_machine (record_call observer state) st).

(* observers.forEach { $0(currentState) }, over the array as it is when
   [forEach] is called *)
Fixpoint forEach (array : list (State -> Body)) (st : Store)
  : option Store :=
  match array with
  | [] => Some st
  | observer :: rest =>
      match notify observer st with
      | Some st' => forEach rest st'
      | None => None
      end
  end.

Definition send_body (event : Event) (st : Store) : option (bool * Store) :=
  match target (machine st) (currentState (machine st)) event with
  | None => Some (false, st)
  | Some nextState =>
      let st := with_machine (setCurrentState nextState) st in
      match forEach (observers (machine st)) st with
      | Some st' => Some (true, st')
      | None => None
      end
  end.

Definition observe_body (observer : State -> Body) (st : Store)
  : option Store :=
  notify observer (with_machine (appendObserver observer) st).
End Methods.

Fixpoint call (fuel : nat) (body : Body) (st : Store) : option Store :=
  match fuel with
  | O => None
  | S fuel =>
      match body with
      | Return => Some st
      | CallSend event k =>
          match send_body (call fuel) event st with
          | Some (result, st') => call fuel (k result) st'
          | None => None
          end
      | CallAddTransition from event to k =>
          call fuel k (with_machine (addTransition from event to) st)
      | CallObserve observer k =>
          match observe_body (call fuel) observer st with
          | Some st' => call fuel k st'
          | None => None
          end
      | ReadCaptured k => call fuel (k (captured st)) st
      | WriteCaptured value k => call fuel k (mkStore (machine st) value)
      end
  end.

Definition send (fuel : nat) (event : Event) (st : Store)
  : option (bool * Store) :=
  send_body (call fuel) event st.

Definition observe (fuel : nat) (observer : State -> Body) (st : Store)
  : option Store :=
  observe_body (call fuel) observer st.
End StateMachine.
Arguments Body : clear implicits.
Arguments t : clear implicits.
Arguments t State Event {_ _ _ _} Captured.
Arguments Store : clear implicits.
Arguments Store State Event {_ _ _ _} Captured.
End StateMachine.

(** ** The recognition screen (ShazamScreen) and the Library screen

    Each event is taken with the promises it starts already settled, their
    outcome given by an environment record; [ShazamScreen] below takes the
    async functions at their awaits. *)

Module ShazamApp.
Record Song : Type := mkSong { title : string; artist : string }.

(* { ...randomSong, timestamp: Date.now() } *)
Record HistoryEntry : Type := mkEntry {
  entry_song : option Song;
  timestamp : Z
}.

(* An [Audio.Recording]: its identity and the audio it captured. *)
Record Recording : Type := mkRecording {
  recording_id : nat;
  captured : list Z
}.

(* A pending [setTimeout(() => stopRecording(target), delay_ms)]. *)
Record Timer : Type := mkTimer { delay_ms : Z; target : Recording }.

(* The React state of both screens, the timer queue and the console. *)
Record App : Type := mkApp {
  isRecording : bool;                 (* ShazamScreen *)
  recording : option Recording;       (* ShazamScreen *)
  hasPermission : bool;               (* ShazamScreen *)
  result : option Song;               (* ShazamScreen *)
  history : list HistoryEntry;        (* LibraryScreen *)
  timers : list Timer;
  console : list string
}.

Definition initial : App := mkApp false None false None [] [] [].

Definition setIsRecording (b : bool) (app : App) : App :=
  mkApp b (recording app) (hasPermission app) (result app) (history app)
        (timers app) (console app).
Definition setRecording (r : option Recording) (app : App) : App :=
  mkApp (isRecording app) r (hasPermission app) (result app) (history app)
        (timers app) (console app).
Definition setHasPermission (b : bool) (app : App) : App :=
  mkApp (isRecording app) (recording app) b (result app) (history app)
        (timers app) (console app).
Definition setResult (r : option Song) (app : App) : App :=
  mkApp (isRecording app) (recording app) (hasPermission app) r
        (history app) (timers app) (console app).
Definition setHistory (h : list HistoryEntry) (app : App) : App :=
  mkApp (isRecording app) (recording app) (hasPermission app) (result app)
        h (timers app) (console app).
Definition setTimeout (r : Recording) (delay : Z) (app : App) : App :=
  mkApp (isRecording app) (recording app) (hasPermission app) (result app)
        (history app) (timers app ++ [mkTimer delay r]) (console app).
Definition clearTimer (n : nat) (app : App) : App :=
  mkApp (isRecording app) (recording app) (hasPermission app) (result app)
        (history app) (delete n (timers app)) (console app).
Definition console_error (msg : string) (app : App) : App :=
  mkApp (isRecording app) (recording app) (hasPermission app) (result app)
        (history app) (timers app) (console app ++ [msg]).

(* What the outside world answers to one run of [startRecording]:
   [None] stands for a rejected promise. *)
Record StartEnv : Type := mkStartEnv {
  permission_status : option bool;    (* requestPermissionsAsync: granted? *)
  audio_mode_set : bool;              (* setAudioModeAsync resolved *)
  created : option Recording          (* Recording.createAsync *)
}.

(* ... and to one run of [stopRecording]. *)
Record StopEnv : Type := mkStopEnv {
  stop_succeeds : bool;               (* stopAndUnloadAsync resolved *)
  random : Binary64.t;                (* Math.random() *)
  now : Z                             (* Date.now() *)
}.

(* [Math.random()] returns a double in [0, 1): [m * 2 ^ e] with a 53-bit
   [m] and [e] between the subnormal exponent and [-53]. *)
Definition is_unit_double (d : Binary64.t) : bool :=
  (0 <=? Binary64.mant d) && (Binary64.mant d <? 2 ^ 53)
  && (-1074 <=? Binary64.expo d) && (Binary64.expo d <=? -53).

Definition mockSongs : list Song :=
  [ mkSong "Blinding Lights" "The Weeknd";
    mkSong "Shape of You" "Ed Sheeran";
    mkSong "Levitating" "Dua Lipa";
    mkSong "Watermelon Sugar" "Harry Styles";
    mkSong "Bad Guy" "Billie Eilish" ].

(* array[i] for a number [i]: [undefined] out of range *)
Definition js_index {A} (l : list A) (i : Z) : option A :=
  if i <? 0 then None else l !! Z.to_nat i.

(* Math.floor(Math.random() * mockSongs.length) *)
Definition songIndex (r : Binary64.t) : Z :=
  Binary64.floor
    (Binary64.mul r (Binary64.of_int (Z.of_nat (length mockSongs)))).

(* In a real app, use AsyncStorage: return [] *)
Definition getHistory (app : App) : list HistoryEntry * App := ([], app).

(* In a real app, use AsyncStorage: empty body *)
Definition saveHistory (history : list HistoryEntry) (app : App) : App :=
  app.

Definition requestPermissions (status : bool) (app : App) : App :=
  setHasPermission status app.

Definition stopRecording (recordingInstance : option Recording)
    (env : StopEnv) (app : App) : App :=
  let recordingToStop :=
    match recordingInstance with
    | Some r => Some r
    | None => recording app
    end in
  match recordingToStop with
  | None => app
  | Some _ =>
      if stop_succeeds env then
        let app := setIsRecording false app in
        let app := setRecording None app in
        let randomSong := js_index mockSongs (songIndex (random env)) in
        let app := setResult randomSong app in
        let '(savedHistory, app) := getHistory app in
        let savedHistory := mkEntry randomSong (now env) :: savedHistory in
        saveHistory (take 50 savedHistory) app
      else console_error "Failed to stop recording" app
  end.

Definition startRecording (env : StartEnv) (app : App) : App :=
  if negb (hasPermission app) then
    match permission_status env with
    | Some status => requestPermissions status app
    | None => console_error "Failed to start recording" app
    end
  else if negb (audio_mode_set env) then
    console_error "Failed to start recording" app
  else
    match created env with
    | None => console_error "Failed to start recording" app
    | Some newRecording =>
        let app := setRecording (Some newRecording) app in
        let app := setIsRecording true app in
        let app := setResult None app in
        setTimeout newRecording 3000 app
    end.

(* onPress={isRecording ? undefined : startRecording}, disabled={isRecording} *)
Definition press (env : StartEnv) (app : App) : App :=
  if isRecording app then app else startRecording env app.

(* LibraryScreen.loadHistory: setHistory([]) *)
Definition loadHistory (app : App) : App := setHistory [] app.

Inductive Event : Type :=
| ShazamMounted (status : option bool)   (* useEffect: requestPermissions() *)
| LibraryMounted                         (* useEffect: loadHistory() *)
| ButtonPressed (env : StartEnv)
| TimerFired (n : nat) (env : StopEnv).  (* the n-th pending timer is due *)

Definition step (app : App) (ev : Event) : App :=
  match ev with
  | ShazamMounted (Some status) => requestPermissions status app
  | ShazamMounted None => app
  | LibraryMounted => loadHistory app
  | ButtonPressed env => press env app
  | TimerFired n env =>
      match timers app !! n with
      | None => app
      | Some timer => stopRecording (Some (target timer)) env (clearTimer n app)
      end
  end.

Definition run (events : list Event) : App := fold_left step events initial.
End ShazamApp.

(** ** The recognition screen at its awaits

    [requestPermissions], [startRecording] and [stopRecording] are async
    functions: each runs up to an [await] on a promise of the audio library
    and resumes when that promise settles, and other events can come in
    between.  [ShazamApp] takes each of them in one step; here the suspended
    runs are part of the state.  The screen is rendered after every event, so
    the handler of the button follows [isRecording] as it then is;
    [getHistory] and [saveHistory] return at once, an [await] on them resumes
    in the same turn. *)

Module ShazamScreen.
(* An async function suspended at an [await]. *)
Inductive Suspended : Type :=
| MountPermissions    (* requestPermissions() of useEffect,
                         at Audio.requestPermissionsAsync() *)
| StartPermissions    (* startRecording, at requestPermissions() *)
| StartAudioMode      (* startRecording, at Audio.setAudioModeAsync(...) *)
| StartCreate         (* startRecording, at Audio.Recording.createAsync(...) *)
| StopUnload (recordingToStop : ShazamApp.Recording).
                      (* stopRecording, at stopAndUnloadAsync() *)

Record Screen : Type := mkScreen {
  app : ShazamApp.App;
  suspended : list Suspended
}.

Definition initial : Screen := mkScreen ShazamApp.initial [].

Definition suspend (run : Suspended) (s : Screen) : Screen :=
  mkScreen (app s) (suspended s ++ [run]).

(* the k-th suspended run gives way to [next] *)
Definition resumed (k : nat) (next : list Suspended) (app : ShazamApp.App)
    (s : Screen) : Screen :=
  mkScreen app (take k (suspended s) ++ next ++ drop (S k) (suspended s)).

(* startRecording, up to its first await *)
Definition startRecording (s : Screen) : Screen :=
  if negb (ShazamApp.hasPermission (app s)) then suspend StartPermissions s
  else suspend StartAudioMode s.

(* onPress={isRecording ? undefined : startRecording}, disabled={isRecording} *)
Definition press (s : Screen) : Screen :=
  if ShazamApp.isRecording (app s) then s else startRecording s.

(* requestPermissions and startRecording from an await on: [env] holds what
   the awaited promise settles with, [None] and [false] for a rejection *)
Definition resume_start (k : nat) (run : Suspended) (env : ShazamApp.StartEnv)
    (s : Screen) : Screen :=
  match run with
  | MountPermissions =>
      match ShazamApp.permission_status env with
      | Some status =>
          resumed k [] (ShazamApp.requestPermissions status (app s)) s
      | None => resumed k [] (app s) s
      end
  | StartPermissions =>
      match ShazamApp.permission_status env with
      | Some status =>
          resumed k [] (ShazamApp.requestPermissions status (app s)) s
      | None =>
          resumed k []
            (ShazamApp.console_error "Failed to start recording" (app s)) s
      end
  | StartAudioMode =>
      if ShazamApp.audio_mode_set env then resumed k [StartCreate] (app s) s
      else
        resumed k []
          (ShazamApp.console_error "Failed to start recording" (app s)) s
  | StartCreate =>
      match ShazamApp.created env with
      | Some newRecording =>
          let app := ShazamApp.setRecording (Some newRecording) (app s) in
          let app := ShazamApp.setIsRecording true app in
          let app := ShazamApp.setResult None app in
          resumed k [] (ShazamApp.setTimeout newRecording 3000 app) s
      | None =>
          resumed k []
            (ShazamApp.console_error "Failed to start recording" (app s)) s
      end
  | StopUnload _ => s
  end.

(* stopRecording from its await on *)
Definition resume_stop (k : nat) (run : Suspended) (env : ShazamApp.StopEnv)
    (s : Screen) : Screen :=
  match run with
  | StopUnload recordingToStop =>
      resumed k []
        (ShazamApp.stopRecording (Some recordingToStop) env (app s)) s
  | _ => s
  end.

Inductive Event : Type :=
| Mounted                   (* useEffect: requestPermissions() *)
| LibraryMounted            (* useEffect: loadHistory() *)
| Pressed
| TimerFired (n : nat)      (* the n-th pending timer is due *)
| StartSettled (k : nat) (env : ShazamApp.StartEnv)
| StopSettled (k : nat) (env : ShazamApp.StopEnv).
                            (* the promise the k-th suspended run awaits
                               has settled *)

Definition step (s : Screen) (ev : Event) : Screen :=
  match ev with
  | Mounted => suspend MountPermissions s
  | LibraryMounted => mkScreen (ShazamApp.loadHistory (app s)) (suspended s)
  | Pressed => press s
  | TimerFired n =>
      match ShazamApp.timers (app s) !! n with
      | None => s
      | Some timer =>
          suspend (StopUnload (ShazamApp.target timer))
                  (mkScreen (ShazamApp.clearTimer n (app s)) (suspended s))
      end
  | StartSettled k env =>
      match suspended s !! k with
      | Some run => resume_start k run env s
      | None => s
      end
  | StopSettled k env =>
      match suspended s !! k with
      | Some run => resume_stop k run env s
      | None => s
      end
  end.

Definition run_from (s : Screen) (events : list Event) : Screen :=
  fold_left step events s.

Definition run (events : list Event) : Screen := run_from initial events.

(* The events of [ShazamApp], each with its promises settling before
   anything else happens. *)
Definition serial (ev : ShazamApp.Event) : list Event :=
  match ev with
  | ShazamApp.ShazamMounted status =>
      [Mounted; StartSettled 0 (ShazamApp.mkStartEnv status false None)]
  | ShazamApp.LibraryMounted => [LibraryMounted]
  | ShazamApp.ButtonPressed env =>
      [Pressed; StartSettled 0 env; StartSettled 0 env]
  | ShazamApp.TimerFired n env => [TimerFired n; StopSettled 0 env]
  end.
End ShazamScreen.

(** ** The Fingerprint Index of the specified matching engine *)

Module FingerprintIndex.
(** Modelled from the spec: the data model of section 3.  The repository
    has no fingerprint or track type. *)
Record Fingerprint : Type := mkFingerprint {
  hash : Z;
  anchorTimeMs : Z;
  trackId : option string
}.

Record Track : Type := mkTrack {
  id : string;
  title : string;
  artist : string;
  fingerprints : list Fingerprint
}.

(** Modelled from the spec: the storage of section 4.2, "a mapping from
    hash to an append-only list of (trackId, anchorTimeMs) pairs".  The
    repository has no index. *)
Abbreviation Entries := (list (string * Z)).

(** Modelled from the spec: [lookup] of section 4.2; "lookup on an absent
    hash returns an empty sequence". *)
Definition lookup (h : Z) (index : gmap Z Entries) : Entries :=
  match index !! h with
  | Some entries => entries
  | None => []
  end.

(** Modelled from the spec: [remove] of section 4.2, "deletes all entries
    for a track id; safe to call on an unknown id". *)
Definition remove (trackId : string) (index : gmap Z Entries)
  : gmap Z Entries :=
  (fun entries =>
     List.filter (fun entry => negb (String.eqb (fst entry) trackId)) entries)
  <$> index.

(** Modelled from the spec: appending one fingerprint of a track to the
    list stored under its hash. *)
Definition append_entry (trackId : string) (index : gmap Z Entries)
    (fp : Fingerprint) : gmap Z Entries :=
  <[hash fp := lookup (hash fp) index ++ [(trackId, anchorTimeMs fp)]]> index.

(** Modelled from the spec: the pairs a track contributes under one hash,
    "multiple occurrences within one track may share a hash". *)
Definition entries_for (h : Z) (track : Track) : Entries :=
  flat_map (fun fp => if hash fp =? h
                      then [(id track, anchorTimeMs fp)] else [])
           (fingerprints track).

(** Modelled from the spec: [add] of section 4.2; "re-adding the same id
    replaces its prior entries rather than duplicating them", so the
    entries of the id are removed before the track's fingerprints are
    appended in order. *)
Definition add (track : Track) (index : gmap Z Entries) : gmap Z Entries :=
  fold_left (append_entry (id track)) (fingerprints track)
            (remove (id track) index).
End FingerprintIndex.

(** ** ComplexAlgorithms.fibonacci *)

Module Fibonacci.
(* [cache] is the [inout] dictionary, threaded through the calls; the two
   recursive calls are evaluated left to right and then added with the
   trapping [+].  [fuel] bounds the call depth, [None] stands for a recursion
   that has not returned within it. *)
Fixpoint fibHelper (fuel : nat) (n : Z) (cache : gmap Z Z)
  : option (Outcome (Z * gmap Z Z)) :=
  match fuel with
  | O => None
  | S fuel' =>
      match cache !! n with
      | Some cached => Some (Returned (cached, cache))
      | None =>
          if n <=? 1 then Some (Returned (n, cache))
          else
            match fibHelper fuel' (n - 1) cache with
            | None => None
            | Some (Trapped t) => Some (Trapped t)
            | Some (Returned (a, cache1)) =>
                match fibHelper fuel' (n - 2) cache1 with
                | None => None
                | Some (Trapped t) => Some (Trapped t)
                | Some (Returned (b, cache2)) =>
                    match SwiftInt.add a b with
                    | Trapped t => Some (Trapped t)
                    | Returned result =>
                        Some (Returned (result, <[n := result]> cache2))
                    end
                end
            end
      end
  end.

(* if n <= 1 { return n }; var cache = [Int: Int](); return fibHelper(n, &cache) *)
Definition fibonacci (n : Z) : option (Outcome Z) :=
  if n <=? 1 then Some (Returned n)
  else
    match fibHelper (S (Z.to_nat n)) n ∅ with
    | None => None
    | Some (Trapped t) => Some (Trapped t)
    | Some (Returned (result, _)) => Some (Returned result)
    end.
End Fibonacci.

(** ** LibraryScreen.getTimeAgo *)

Module LibraryScreen.
(* [now] is [Date.now()] and [time] is [date.getTime()], in milliseconds; a
   JavaScript number is a double, and a whole number below [10 ^ 21] is
   printed in a template literal by its decimal digits. *)
Definition js_floor_div (x : Binary64.t) (d : Z) : Z :=
  Binary64.floor (Binary64.div x (Binary64.of_int d)).

Definition getTimeAgo (now time : Z) : string :=
  (* Math.floor((Date.now() - date.getTime()) / 1000) *)
  let seconds :=
    js_floor_div (double_sub (Binary64.of_int now) (Binary64.of_int time))
                 1000 in
  if seconds <? 60 then "Just now"
  else if seconds <? 3600 then
    pretty (js_floor_div (Binary64.of_int seconds) 60) +:+ "m ago"
  else if seconds <? 86400 then
    pretty (js_floor_div (Binary64.of_int seconds) 3600) +:+ "h ago"
  else pretty (js_floor_div (Binary64.of_int seconds) 86400) +:+ "d ago".
End LibraryScreen.

(** ** GenericContainer *)

Module GenericContainer.
Section GenericContainer.
Context {T : Type}.

Record t : Type := mk { items : list T }.

(* init() *)
Definition init : t := mk [].

Definition count (c : t) : Z := Z.of_nat (length (items c)).

Definition append (item : T) (c : t) : t := mk (items c ++ [item]).

(* subscript(index:): [None] is the fatal "Index out of range" of [Array] *)
Definition subscript (index : Z) (c : t) : option T :=
  if (0 <=? index) && (index <? count c) then items c !! Z.to_nat index
  else None.
End GenericContainer.
Arguments t : clear implicits.

(* var result = GenericContainer<U>(); for item in items { result.append(transform(item)) } *)
Definition map {T U} (transform : T -> U) (c : t T) : t U :=
  fold_left (fun result item => append (transform item) result)
            (items c) init.

(* for item in items where predicate(item) { result.append(item) } *)
Definition filter {T} (predicate : T -> bool) (c : t T) : t T :=
  fold_left (fun result item =>
               if predicate item then append item result else result)
            (items c) init.

(* var result = initialValue; for item in items { result = combine(result, item) } *)
Definition reduce {T U} (initialValue : U) (combine : U -> T -> U) (c : t T)
  : U :=
  fold_left combine (items c) initialValue.
End GenericContainer.

(** ** GenericRepository *)

Module GenericRepository.
Section GenericRepository.
Context {T ID : Type} `{Countable ID}.

Record t : Type := mk { storage : gmap ID T }.

Definition init : t := mk ∅.

(* save(_:): the body only takes and releases the lock *)
Definition save (entity : T) (repo : t) : t := repo.

Definition find (id : ID) (repo : t) : option T := storage repo !! id.

(* Array(storage.values), in the dictionary's order *)
Definition findAll (repo : t) : list T := (map_to_list (storage repo)).*2.

Definition delete (id : ID) (repo : t) : t :=
  mk (base.delete id (storage repo)).

Inductive Operation : Type :=
| Save (entity : T)
| Delete (id : ID).

Definition apply (repo : t) (op : Operation) : t :=
  match op with
  | Save entity => save entity repo
  | Delete id => delete id repo
  end.
End GenericRepository.
Arguments t : clear implicits.
Arguments t T ID {_ _}.
Arguments Operation : clear implicits.
End GenericRepository.

(** ** Either *)

Module Either.
(* The private enum [Value], with [Left] and [Right] for its cases [.left]
   and [.right]. *)
Inductive t (L R : Type) : Type :=
| Left (l : L)
| Right (r : R).
Arguments Left {L R} l.
Arguments Right {L R} r.

Definition fold {L R A} (onLeft : L -> A) (onRight : R -> A) (e : t L R) : A :=
  match e with
  | Left l => onLeft l
  | Right r => onRight r
  end.

Definition map {L R A} (transform : R -> A) (e : t L R) : t L A :=
  match e with
  | Left l => Left l
  | Right r => Right (transform r)
  end.

Definition flatMap {L R A} (transform : R -> t L A) (e : t L R) : t L A :=
  match e with
  | Left l => Left l
  | Right r => transform r
  end.
End Either.

(** ** Observable *)

Module Observable.
Section Observable.
(* Observers are closures; [Observer] names them and [calls] records every
   call made to one, with the value it was given. *)
Context {T Observer : Type}.

Record t : Type := mk {
  observers : list Observer;
  value : T;
  calls : list (Observer * T)
}.

(* init(value:) *)
Definition init (v : T) : t := mk [] v [].

(* observers.append(observer); observer(value) *)
Definition subscribe (observer : Observer) (o : t) : t :=
  mk (observers o ++ [observer]) (value o) (calls o ++ [(observer, value o)]).

(* value = newValue; observers.forEach { $0(newValue) } *)
Definition update (newValue : T) (o : t) : t :=
  mk (observers o) newValue
     (calls o ++ List.map (fun obs => (obs, newValue)) (observers o)).
End Observable.
Arguments t : clear implicits.

(* Observable<U>(value: transform(value)) *)
Definition map {T U Observer} (transform : T -> U) (o : t T Observer)
  : t U Observer :=
  init (transform (value o)).
End Observable.

(** ** Monoid and reduce *)

Class Monoid (M : Type) : Type := {
  empty : M;
  combine : M -> M -> M
}.

(* extension String: Monoid *)
#[export] Instance String_Monoid : Monoid string :=
  {| empty := EmptyString; combine lhs rhs := String.append lhs rhs |}.

(* extension Array: Monoid *)
#[export] Instance Array_Monoid {A : Type} : Monoid (list A) :=
  {| empty := []; combine lhs rhs := lhs ++ rhs |}.

(* values.reduce(M.empty, M.combine) *)
Definition monoid_reduce {M} `{Monoid M} (values : list M) : M :=
  fold_left combine values empty.

(** * Properties *)

(** ** Vocabulary of the statements *)

(** The sum of a byte array, as a mathematical integer. *)
Definition byte_sum (bytes : list Z) : Z := fold_right Z.add 0 bytes.

(** [a <= b] for a [Comparable] type: not [b < a]. *)
Definition le {T} `{Comparable T} (a b : T) : Prop := lt b a = false.

(** What holds of the recognition screen after any events: pending timers
    are the 3000 ms ones of [startRecording], a displayed result is a mock
    song. *)
Definition recognition_invariant (app : ShazamApp.App) : Prop :=
  (forall timer,
      In timer (ShazamApp.timers app) -> ShazamApp.delay_ms timer = 3000) /\
  (forall song,
      ShazamApp.result app = Some song -> In song ShazamApp.mockSongs).

(** Forgetting the audio a recording has captured, in a recording, in the
    answers of the outside world, in an event and in the application. *)
Definition silence (r : ShazamApp.Recording) : ShazamApp.Recording :=
  ShazamApp.mkRecording (ShazamApp.recording_id r) [].

Definition silence_start (env : ShazamApp.StartEnv) : ShazamApp.StartEnv :=
  ShazamApp.mkStartEnv (ShazamApp.permission_status env)
                       (ShazamApp.audio_mode_set env)
                       (silence <$> ShazamApp.created env).

Definition silence_event (ev : ShazamApp.Event) : ShazamApp.Event :=
  match ev with
  | ShazamApp.ButtonPressed env => ShazamApp.ButtonPressed (silence_start env)
  | _ => ev
  end.

Definition silence_timer (timer : ShazamApp.Timer) : ShazamApp.Timer :=
  ShazamApp.mkTimer (ShazamApp.delay_ms timer)
                    (silence (ShazamApp.target timer)).

Definition silence_app (app : ShazamApp.App) : ShazamApp.App :=
  ShazamApp.mkApp (ShazamApp.isRecording app)
                  (silence <$> ShazamApp.recording app)
                  (ShazamApp.hasPermission app)
                  (ShazamApp.result app)
                  (ShazamApp.history app)
                  (silence_timer <$> ShazamApp.timers app)
                  (ShazamApp.console app).

(** A start request is reported as failed when it leaves a new message on
    the console, the only place where the screen reports failures. *)
Definition start_reported_as_failed (env : ShazamApp.StartEnv)
    (app : ShazamApp.App) : Prop :=
  exists msg, In msg (ShazamApp.console (ShazamApp.press env app)) /\
              ~ In msg (ShazamApp.console app).

(** An observer that does not call back into the machine. *)
Fixpoint inert {State Event Captured : Type}
    (body : StateMachine.Body State Event Captured) : Prop :=
  match body with
  | StateMachine.Return => True
  | StateMachine.ReadCaptured k => forall value, inert (k value)
  | StateMachine.WriteCaptured _ k => inert k
  | _ => False
  end.

(** ** Sample inputs *)

Definition sample_recording : ShazamApp.Recording :=
  ShazamApp.mkRecording 1 [0; 12; -7; 3].

Definition sample_start : ShazamApp.StartEnv :=
  ShazamApp.mkStartEnv (Some true) true (Some sample_recording).

(* the largest double below 1 *)
Definition sample_stop : ShazamApp.StopEnv :=
  ShazamApp.mkStopEnv true (Binary64.mk (2 ^ 53 - 1) (-53)) 1700000000000.

(* permission granted on mount, then one press: the screen is listening *)
Definition sample_listening : list ShazamApp.Event :=
  [ShazamApp.ShazamMounted (Some true); ShazamApp.ButtonPressed sample_start].

(* idle --start--> listening --more--> matched *)
Definition sample_table : StateMachine.t nat string nat :=
  StateMachine.addTransition 1%nat "more"%string 2%nat
    (StateMachine.addTransition 0%nat "start"%string 1%nat
       (StateMachine.init 0%nat)).

(* an observer that only counts its calls in the captured variable *)
Definition counting_observer (state : nat) : StateMachine.Body nat string nat :=
  StateMachine.ReadCaptured
    (fun n => StateMachine.WriteCaptured (S n) StateMachine.Return).

(* an observer that sends "more" as soon as it is told of state 1 *)
Definition eager_observer (state : nat) : StateMachine.Body nat string nat :=
  if Nat.eqb state 1
  then StateMachine.CallSend "more"%string (fun _ => StateMachine.Return)
  else StateMachine.Return.

(* [sample_table] with [counting_observer] registered by [observe], which
   called it once *)
Definition sample_machine : StateMachine.Store nat string nat :=
  StateMachine.mkStore
    (StateMachine.mk 0%nat (StateMachine.transitions sample_table)
                     [counting_observer] [(counting_observer, 0%nat)])
    1%nat.

(* [sample_table] with [eager_observer] registered *)
Definition reentrant_machine : StateMachine.Store nat string nat :=
  StateMachine.mkStore
    (StateMachine.mk 0%nat (StateMachine.transitions sample_table)
                     [eager_observer] [(eager_observer, 0%nat)])
    0%nat.

(** ** Vocabulary of the further properties *)

(** The Fibonacci numbers, by iteration on pairs [(F n, F (n + 1))]. *)
Fixpoint fib_pair (n : nat) : Z * Z :=
  match n with
  | O => (0, 1)
  | S n' => let '(a, b) := fib_pair n' in (b, a + b)
  end.

Definition fib (n : nat) : Z := fst (fib_pair n).

(** What [fibonacci] returns when it returns: [n] itself up to 1, negative
    numbers included, and the Fibonacci number after that. *)
Definition fib_value (n : Z) : Z := if n <=? 1 then n else fib (Z.to_nat n).

(** Every entry of the memo table is a Fibonacci number that fits an [Int]. *)
Definition cache_sound (cache : gmap Z Z) : Prop :=
  forall k v, cache !! k = Some v -> 2 <= k <= 92 /\ v = fib (Z.to_nat k).

(** The digits [%02x] prints. *)
Definition is_hex_digit (c : ascii) : bool :=
  match String.index 0 (String c EmptyString) "0123456789abcdef" with
  | Some _ => true
  | None => false
  end.

(* stopAndUnloadAsync rejects *)
Definition sample_failing_stop : ShazamApp.StopEnv :=
  ShazamApp.mkStopEnv false (Binary64.mk 0 0) 1700000000000.

(** The runs of [startRecording] that are past the permission check, and the
    recordings whose stop is under way. *)
Definition is_starting (run : ShazamScreen.Suspended) : bool :=
  match run with
  | ShazamScreen.StartAudioMode | ShazamScreen.StartCreate => true
  | _ => false
  end.

Definition starting (s : ShazamScreen.Screen) : list ShazamScreen.Suspended :=
  List.filter is_starting (ShazamScreen.suspended s).

Definition stopping_of (run : ShazamScreen.Suspended)
  : list ShazamApp.Recording :=
  match run with
  | ShazamScreen.StopUnload r => [r]
  | _ => []
  end.

Definition stopping (s : ShazamScreen.Screen) : list ShazamApp.Recording :=
  flat_map stopping_of (ShazamScreen.suspended s).

(** The button is pressed only when no earlier [startRecording] is still on
    its way to a recording. *)
Fixpoint one_press_at_a_time (s : ShazamScreen.Screen)
    (events : list ShazamScreen.Event) : Prop :=
  match events with
  | [] => True
  | ev :: rest =>
      (ev = ShazamScreen.Pressed -> starting s = []) /\
      one_press_at_a_time (ShazamScreen.step s ev) rest
  end.

Definition one_session (s : ShazamScreen.Screen) : Prop :=
  let app := ShazamScreen.app s in
  (ShazamApp.isRecording app = true <-> is_Some (ShazamApp.recording app)) /\
  (ShazamApp.isRecording app = true ->
   ShazamApp.result app = None /\ starting s = []) /\
  (ShazamApp.isRecording app = false ->
   ShazamApp.timers app = [] /\ stopping s = []) /\
  (length (starting s) <= 1)%nat /\
  (length (ShazamApp.timers app) + length (stopping s) <= 1)%nat /\
  (forall timer,
      In timer (ShazamApp.timers app) ->
      ShazamApp.recording app = Some (ShazamApp.target timer)) /\
  (forall r, In r (stopping s) -> ShazamApp.recording app = Some r).

(** The screen says "Listening..." and nothing is left to end it. *)
Definition stuck_listening (s : ShazamScreen.Screen) : Prop :=
  let app := ShazamScreen.app s in
  ShazamApp.isRecording app = true /\
  ShazamApp.timers app = [] /\
  ShazamApp.result app = None /\
  starting s = [] /\
  stopping s = [].

(* what the promises of one [startRecording] settle with, for a recording *)
Definition starts_with (r : ShazamApp.Recording) : ShazamApp.StartEnv :=
  ShazamApp.mkStartEnv (Some true) true (Some r).

(* the oldest suspended [startRecording] gets its audio mode and then [r] *)
Definition settle_start (r : ShazamApp.Recording) : list ShazamScreen.Event :=
  [ShazamScreen.StartSettled 0 (starts_with r);
   ShazamScreen.StartSettled 0 (starts_with r)].

(* the state updates of [startRecording] once [createAsync] has resolved *)
Definition started (app : ShazamApp.App) (r : ShazamApp.Recording)
  : ShazamApp.App :=
  ShazamApp.setTimeout r 3000
    (ShazamApp.setResult None
       (ShazamApp.setIsRecording true
          (ShazamApp.setRecording (Some r) app))).

Definition sample_second_recording : ShazamApp.Recording :=
  ShazamApp.mkRecording 2 [5; 5].

(* permission granted on mount, then one press whose promises resolve *)
Definition sample_presses : list ShazamScreen.Event :=
  flat_map ShazamScreen.serial sample_listening.

(** Sending a sequence of events, one after the other. *)
Fixpoint send_all {State Event Captured : Type}
    `{Countable State} `{Countable Event}
    (fuel : nat) (events : list Event)
    (st : StateMachine.Store State Event Captured)
  : option (StateMachine.Store State Event Captured) :=
  match events with
  | [] => Some st
  | event :: events' =>
      match StateMachine.send fuel event st with
      | Some (_, st') => send_all fuel events' st'
      | None => None
      end
  end.

(** The states a machine enters on a sequence of events, read off its
    transition table: an event without a transition is skipped. *)
Fixpoint entered {State Event Captured : Type}
    `{Countable State} `{Countable Event}
    (sm : StateMachine.t State Event Captured) (state : State)
    (events : list Event) : list State :=
  match events with
  | [] => []
  | event :: events' =>
      match StateMachine.target sm state event with
      | Some next => next :: entered sm next events'
      | None => entered sm state events'
      end
  end.

(** Updating an observable with a sequence of values. *)
Definition update_all {T Observer : Type} (values : list T)
    (o : Observable.t T Observer) : Observable.t T Observer :=
  fold_left (fun o v => Observable.update v o) values o.

(** The requirements of a monoid: [empty] is a unit of [combine], which is
    associative. *)
Class LawfulMonoid (M : Type) `{Monoid M} : Prop := {
  combine_empty_l : forall a : M, combine empty a = a;
  combine_empty_r : forall a : M, combine a empty = a;
  combine_assoc : forall a b c : M,
      combine (combine a b) c = combine a (combine b c)
}.

(** ** Loops and traps *)

Lemma for_in_counting_outcome {St} (range : list Z)
    (body : St -> Z -> Outcome St) (s : St) (n : nat) :
  snd (for_in_counting range body s n) = for_in range body s.
Proof.
  revert s n. induction range as [|i range IH]; intros s n; simpl; [done|].
  destruct (body s i) as [s'|t]; simpl; [apply IH | done].
Qed.

Lemma for_in_counting_bound {St} (range : list Z)
    (body : St -> Z -> Outcome St) (s : St) (n : nat) :
  (fst (for_in_counting range body s n) <= n + length range)%nat.
Proof.
  revert s n. induction range as [|i range IH]; intros s n; simpl; [lia|].
  destruct (body s i) as [s'|t]; simpl; [|lia].
  specialize (IH s' (S n)). lia.
Qed.

Lemma for_in_counting_returned {St} (range : list Z)
    (body : St -> Z -> Outcome St) (s s' : St) (n : nat) :
  for_in range body s = Returned s' ->
  fst (for_in_counting range body s n) = (n + length range)%nat.
Proof.
  revert s n. induction range as [|i range IH]; intros s n; simpl.
  - intros _. lia.
  - destruct (body s i) as [s1|t]; simpl; [|done].
    intros Hr. rewrite (IH _ _ Hr). lia.
Qed.

Lemma obind_Returned {A B} (a : A) (k : A -> Outcome B) :
  obind (Returned a) k = k a.
Proof. reflexivity. Qed.

Lemma half_open_range_from_0 (n : Z) :
  0 <= n -> half_open_range 0 n = Returned (seqZ 0 n).
Proof.
  intros Hn. unfold half_open_range.
  assert (Hlt : (n <? 0) = false) by (apply Z.ltb_ge; lia).
  rewrite Hlt. f_equal. f_equal. lia.
Qed.

Lemma omap_length {A B} (f : A -> Outcome B) (l : list A) (ys : list B) :
  omap f l = Returned ys -> length ys = length l.
Proof.
  revert ys. induction l as [|x l IH]; intros ys; simpl.
  - intros [= <-]. done.
  - destruct (f x) as [y|t]; simpl; [|done].
    destruct (omap f l) as [ys'|t]; simpl; [|done].
    intros [= <-]. simpl. f_equal. by apply IH.
Qed.

Lemma omap_returns {A B} (f : A -> Outcome B) (l : list A) :
  (forall x, In x l -> exists y, f x = Returned y) ->
  exists ys, omap f l = Returned ys.
Proof.
  induction l as [|x l IH]; intros Hf; simpl; [by eexists|].
  destruct (Hf x) as [y Hy]; [by left|]. rewrite Hy. simpl.
  destruct IH as [ys Hys]; [intros; apply Hf; by right|].
  rewrite Hys. simpl. by eexists.
Qed.

Lemma omap_Forall {A B} (P : B -> Prop) (f : A -> Outcome B) (l : list A)
    (ys : list B) :
  (forall x y, In x l -> f x = Returned y -> P y) ->
  omap f l = Returned ys -> Forall P ys.
Proof.
  revert ys. induction l as [|x l IH]; intros ys Hf; simpl.
  - intros [= <-]. constructor.
  - destruct (f x) as [y|t] eqn:Hy; simpl; [|done].
    destruct (omap f l) as [ys'|t]; simpl; [|done].
    intros [= <-]. constructor.
    + apply (Hf x); [by left | done].
    + apply IH; [|done]. intros x' y' Hin. apply Hf. by right.
Qed.

Lemma omap_traps {A B} (f : A -> Outcome B) (l : list A) (t : Trap) :
  (forall x, In x l -> f x = Trapped t \/ exists y, f x = Returned y) ->
  (exists x, In x l /\ f x = Trapped t) ->
  omap f l = Trapped t.
Proof.
  induction l as [|x l IH]; intros Hall [x0 [Hin Hx0]]; simpl.
  - destruct Hin.
  - destruct (Hall x) as [Hx|[y Hy]]; [by left | by rewrite Hx |].
    rewrite Hy. simpl. rewrite IH; [done | |].
    + intros x' Hx'. apply Hall. by right.
    + destruct Hin as [->|Hin]; [congruence | eauto].
Qed.

Lemma In_seqZ (a n x : Z) : In x (seqZ a n) <-> a <= x < a + n.
Proof. rewrite <- list_elem_of_In. rewrite elem_of_seqZ. lia. Qed.

(** ** HeavyProcessor *)

(** When it returns, [generateSequence(from:count:)] has [count] elements. *)
Lemma generateSequence_length (start count : Z) (l : list Z) :
  HeavyProcessor.generateSequence start count = Returned l ->
  length l = Z.to_nat count.
Proof.
  unfold HeavyProcessor.generateSequence, half_open_range.
  destruct (count <? 0) eqn:Hc; [done|]. rewrite obind_Returned.
  intros Hl. apply omap_length in Hl. rewrite Hl, length_seqZ. f_equal. lia.
Qed.

(** It returns exactly when the last element [start + 7 * (count - 1)] is an
    [Int]; for [count = 100] that is [start <= Int.max - 693]. *)
Lemma generateSequence_returns (start : Z) :
  SwiftInt.min <= start <= SwiftInt.max - 693 ->
  exists l, HeavyProcessor.generateSequence start 100 = Returned l.
Proof.
  intros Hs. unfold HeavyProcessor.generateSequence.
  rewrite half_open_range_from_0, obind_Returned by lia.
  apply omap_returns. intros k Hk. apply In_seqZ in Hk.
  unfold SwiftInt.mul, SwiftInt.add, SwiftInt.checked, SwiftInt.fits,
    SwiftInt.min, SwiftInt.max in *.
  assert (H1 : (- 2 ^ 63 <=? k * 7) && (k * 7 <=? 2 ^ 63 - 1) = true)
    by (apply andb_true_iff; split; apply Z.leb_le; lia).
  rewrite H1. simpl.
  assert (H2 : (- 2 ^ 63 <=? start + k * 7)
               && (start + k * 7 <=? 2 ^ 63 - 1) = true)
    by (apply andb_true_iff; split; apply Z.leb_le; lia).
  rewrite H2. by eexists.
Qed.

Lemma generateSequence_overflows (start : Z) :
  SwiftInt.max - 693 < start <= SwiftInt.max ->
  HeavyProcessor.generateSequence start 100 = Trapped ArithmeticOverflow.
Proof.
  intros Hs. unfold HeavyProcessor.generateSequence.
  rewrite half_open_range_from_0, obind_Returned by lia.
  unfold SwiftInt.max in Hs.
  apply omap_traps.
  - intros k Hk. apply In_seqZ in Hk.
    unfold SwiftInt.mul, SwiftInt.add, SwiftInt.checked, SwiftInt.fits,
      SwiftInt.min, SwiftInt.max.
    assert (H1 : (- 2 ^ 63 <=? k * 7) && (k * 7 <=? 2 ^ 63 - 1) = true)
      by (apply andb_true_iff; split; apply Z.leb_le; lia).
    rewrite H1, obind_Returned.
    destruct ((- 2 ^ 63 <=? start + k * 7) && _);
      [right; by eexists | by left].
  - exists 99. split; [apply In_seqZ; lia|].
    change (SwiftInt.mul 99 7) with (Returned (A:=Z) 693).
    rewrite obind_Returned.
    unfold SwiftInt.add, SwiftInt.checked, SwiftInt.fits,
      SwiftInt.min, SwiftInt.max.
    assert (H2 : (- 2 ^ 63 <=? start + 693)
                 && (start + 693 <=? 2 ^ 63 - 1) = false)
      by (apply andb_false_iff; right; apply Z.leb_gt; lia).
    by rewrite H2.
Qed.

(** Every iteration that completes has generated a 100-element sequence. *)
Lemma complexCalculation_sequence (input iteration result : Z) :
  HeavyProcessor.complexCalculation input iteration = Returned result ->
  exists sequence,
    HeavyProcessor.generateSequence input 100 = Returned sequence /\
    length sequence = 100%nat.
Proof.
  unfold HeavyProcessor.complexCalculation.
  destruct (HeavyProcessor.generateSequence input 100) as [l|t] eqn:Hl;
    [|done].
  intros _. exists l. split; [done|].
  by apply generateSequence_length in Hl.
Qed.

(** The loop of [processLargeDataset] never runs more than 1000 iterations,
    and runs exactly 1000 when the call returns. *)
Lemma processLargeDataset_iterations (value : Z) :
  (fst (HeavyProcessor.processLargeDataset_counting value) <= 1000)%nat /\
  snd (HeavyProcessor.processLargeDataset_counting value)
    = HeavyProcessor.processLargeDataset value /\
  (forall result,
      HeavyProcessor.processLargeDataset value = Returned result ->
      fst (HeavyProcessor.processLargeDataset_counting value) = 1000%nat).
Proof.
  unfold HeavyProcessor.processLargeDataset_counting,
    HeavyProcessor.processLargeDataset.
  rewrite half_open_range_from_0, obind_Returned by lia.
  split; [|split].
  - pose proof (for_in_counting_bound (seqZ 0 1000)
                  HeavyProcessor.complexCalculation value 0) as Hb.
    rewrite length_seqZ in Hb. lia.
  - apply for_in_counting_outcome.
  - intros result Hr.
    rewrite (for_in_counting_returned _ _ _ _ 0 Hr), length_seqZ. lia.
Qed.

(** C6 (as the code behaves): [processLargeDataset] does not complete its
    1000 iterations.  On input 0 the value grows about 115-fold per iteration;
    iterations 0 to 6 complete and iteration 7 traps in [Int(_: Double)],
    the sum being above [Int.max].  On input [Int.max] the first call of
    [generateSequence] traps on [start + 7] before any sequence exists. *)
Theorem processLargeDataset_traps :
  HeavyProcessor.processLargeDataset_counting 0
    = (7%nat, Trapped ConversionOutOfRange) /\
  HeavyProcessor.processLargeDataset 0 = Trapped ConversionOutOfRange /\
  HeavyProcessor.processLargeDataset_counting SwiftInt.max
    = (0%nat, Trapped ArithmeticOverflow) /\
  HeavyProcessor.processLargeDataset SwiftInt.max
    = Trapped ArithmeticOverflow.
Proof. vm_compute. repeat split. Qed.

(** X21.  Inputs within 693 of [Int.max] trap at once, in
    [generateSequence]. *)
Lemma processLargeDataset_overflows (value : Z) :
  SwiftInt.max - 693 < value <= SwiftInt.max ->
  HeavyProcessor.processLargeDataset value = Trapped ArithmeticOverflow.
Proof.
  intros Hv. unfold HeavyProcessor.processLargeDataset.
  rewrite half_open_range_from_0, obind_Returned by lia.
  rewrite (seqZ_cons 0 1000) by lia.
  unfold for_in at 1, HeavyProcessor.complexCalculation.
  by rewrite generateSequence_overflows.
Qed.

(** Other inputs fare no better: the value outgrows [Int] within nine
    iterations. *)
Example processLargeDataset_more_inputs :
  map HeavyProcessor.processLargeDataset_counting
      [SwiftInt.min; -1; 1; 1000000000]
  = [(8%nat, Trapped ConversionOutOfRange);
     (7%nat, Trapped ConversionOutOfRange);
     (7%nat, Trapped ConversionOutOfRange);
     (4%nat, Trapped ConversionOutOfRange)].
Proof. vm_compute. reflexivity. Qed.

(** The literals, as the bits of their binary64 values
    ([0x1.921f9f01b866ep+1] and [0x1.5bf0995aaf790p+1]). *)
Example literal_3_14159 :
  Binary64.of_decimal 314159 100000 = Binary64.mk 0x1921f9f01b866e (-51).
Proof. reflexivity. Qed.

Example literal_2_71828 :
  Binary64.of_decimal 271828 100000 = Binary64.mk 0x15bf0995aaf790 (-51).
Proof. reflexivity. Qed.

(** The first seven iterations on input 0, as binary64 computes them. *)
Example processLargeDataset_0_prefix :
  for_in (seqZ 0 7) HeavyProcessor.complexCalculation 0
    = Returned 96261885450234064.
Proof. vm_compute. reflexivity. Qed.

(** ** MatrixCalculator *)

Section MatrixCalculatorFacts.
Variables sin cos tan sqrt log : Binary64.t -> Binary64.t.
Variable pow : Binary64.t -> Binary64.t -> Binary64.t.

(** X23.  [generateMatrix(size:)] returns a square matrix of dimension
    [min(size, 100)] for every [size >= 0]. *)
Lemma generateMatrix_square (size : Z) :
  0 <= size ->
  exists matrix,
    generateMatrix sin cos tan sqrt log pow size = Returned matrix /\
    length matrix = Z.to_nat (Z.min size 100) /\
    Forall (fun row => length row = Z.to_nat (Z.min size 100)) matrix.
Proof.
  intros Hsize. unfold generateMatrix.
  set (n := Z.min size 100).
  assert (Hn : 0 <= n <= 100) by (unfold n; lia).
  rewrite half_open_range_from_0, obind_Returned by lia.
  destruct (omap_returns
    (fun i => let! cols := Returned (seqZ 0 n) in
              omap (fun j => calculateElement sin cos tan i j n) cols)
    (seqZ 0 n)) as [m Hm].
  { intros i Hi. apply In_seqZ in Hi. rewrite obind_Returned.
    apply omap_returns. intros j Hj. apply In_seqZ in Hj.
    unfold calculateElement, SwiftInt.mul, SwiftInt.checked, SwiftInt.fits,
      SwiftInt.min, SwiftInt.max.
    assert (H1 : (- 2 ^ 63 <=? i * j) && (i * j <=? 2 ^ 63 - 1) = true)
      by (apply andb_true_iff; split; apply Z.leb_le; nia).
    rewrite H1, obind_Returned. by eexists. }
  rewrite Hm, obind_Returned. eexists. split; [done|].
  unfold transformMatrix. rewrite length_map.
  split.
  - apply omap_length in Hm. rewrite Hm, length_seqZ. done.
  - apply Forall_map.
    apply (omap_Forall (fun row => length row = Z.to_nat n)) in Hm.
    + eapply Forall_impl; [exact Hm|]. intros row Hrow. simpl.
      by rewrite length_map.
    + intros i row _. rewrite obind_Returned. intros Hrow.
      apply omap_length in Hrow.
      by rewrite Hrow, length_seqZ.
Qed.

(** X24.  A negative [size] makes [0..<actualSize] an invalid range. *)
Lemma generateMatrix_negative (size : Z) :
  size < 0 ->
  generateMatrix sin cos tan sqrt log pow size = Trapped InvalidRange.
Proof.
  intros Hsize. unfold generateMatrix, half_open_range.
  assert (Hlt : (Z.min size 100 <? 0) = true) by (apply Z.ltb_lt; lia).
  by rewrite Hlt.
Qed.
End MatrixCalculatorFacts.

(** ** Binary64 rounding *)

(** [round_shift a s] is a nearest integer to [a / 2 ^ s]. *)
Lemma round_shift_nearest (a s : Z) :
  0 <= a -> 0 < s ->
  0 <= Binary64.round_shift a s /\
  Binary64.round_shift a s * 2 ^ s <= a + 2 ^ (s - 1) /\
  a <= Binary64.round_shift a s * 2 ^ s + 2 ^ (s - 1).
Proof.
  intros Ha Hs. unfold Binary64.round_shift.
  rewrite Z.shiftr_div_pow2, !Z.shiftl_mul_pow2, Z.mul_1_l by lia.
  assert (Hp : 0 < 2 ^ s) by (apply Z.pow_pos_nonneg; lia).
  assert (Hh : 2 ^ s = 2 * 2 ^ (s - 1)).
  { rewrite <- Z.pow_succ_r by lia. f_equal. lia. }
  pose proof (Z.div_mod a (2 ^ s) ltac:(lia)) as Hdm.
  pose proof (Z.mod_pos_bound a (2 ^ s) Hp) as Hmod.
  assert (Hq : 0 <= a / 2 ^ s) by (apply Z.div_pos; lia).
  set (q := a / 2 ^ s) in *. set (h := 2 ^ (s - 1)) in *.
  destruct (a - q * 2 ^ s <? h) eqn:H1;
    [apply Z.ltb_lt in H1 | apply Z.ltb_ge in H1]; [nia|].
  destruct (h <? a - q * 2 ^ s) eqn:H2;
    [apply Z.ltb_lt in H2 | apply Z.ltb_ge in H2]; [nia|].
  destruct (Z.even q); nia.
Qed.

(** Values with at most 53 significant bits are not changed by rounding. *)
Lemma round_exact (m e : Z) :
  Z.abs m < 2 ^ 53 -> Binary64.round m e = Binary64.mk m e.
Proof.
  intros Hm. unfold Binary64.round, Binary64.prec.
  assert (Hl : Z.log2 (Z.abs m) < 53).
  { destruct (Z.eq_dec (Z.abs m) 0) as [->|Hne]; [done|].
    apply Z.log2_lt_pow2; lia. }
  assert (Hs : (Z.log2 (Z.abs m) + 1 - 53 <=? 0) = true)
    by (apply Z.leb_le; lia).
  by rewrite Hs.
Qed.

(** ** The song index *)

Lemma is_unit_double_spec (d : Binary64.t) :
  ShazamApp.is_unit_double d = true <->
  0 <= Binary64.mant d < 2 ^ 53 /\ -1074 <= Binary64.expo d <= -53.
Proof.
  unfold ShazamApp.is_unit_double.
  rewrite !andb_true_iff, !Z.leb_le, !Z.ltb_lt. lia.
Qed.

(** [Math.floor(Math.random() * 5)] is one of 0, 1, 2, 3, 4: the product is
    rounded to at most [5 - 2 ^ -50], never up to 5. *)
Lemma songIndex_in_bounds (r : Binary64.t) :
  ShazamApp.is_unit_double r = true ->
  0 <= ShazamApp.songIndex r < 5.
Proof.
  intros Hr. apply is_unit_double_spec in Hr. destruct r as [m e].
  simpl in Hr. destruct Hr as [Hm He].
  unfold ShazamApp.songIndex.
  change (Binary64.of_int (Z.of_nat (length ShazamApp.mockSongs)))
    with (Binary64.mk 5 0).
  unfold Binary64.mul, Binary64.round, Binary64.prec. simpl Binary64.mant.
  simpl Binary64.expo. rewrite Z.add_0_r.
  rewrite (Z.abs_eq (m * 5)) by lia.
  assert (Hlog : Z.log2 (m * 5) < 56).
  { destruct (Z.eq_dec m 0) as [->|Hne]; [done|].
    apply Z.log2_lt_pow2; lia. }
  destruct (Z.log2 (m * 5) + 1 - 53 <=? 0) eqn:Hs.
  - (* the product is exact and below [2 ^ 53 * 2 ^ e <= 1] *)
    apply Z.leb_le in Hs. unfold Binary64.floor. simpl.
    assert (He' : (0 <=? e) = false) by (apply Z.leb_gt; lia).
    rewrite He'.
    assert (Hlt : m * 5 < 2 ^ 53).
    { destruct (Z.eq_dec m 0) as [->|Hne]; [done|].
      apply Z.log2_lt_pow2; lia. }
    assert (Hpow : 2 ^ 53 <= 2 ^ (- e)) by (apply Z.pow_le_mono_r; lia).
    rewrite Z.div_small; lia.
  - apply Z.leb_gt in Hs.
    set (s := Z.log2 (m * 5) + 1 - 53) in *.
    assert (Hpos : 0 < m * 5) by (destruct (Z.eq_dec m 0); subst; [done | lia]).
    rewrite (Z.sgn_pos (m * 5)), Z.mul_1_l by lia.
    destruct (round_shift_nearest (m * 5) s) as (Hr0 & Hup & _); [lia..|].
    set (rs := Binary64.round_shift (m * 5) s) in *.
    unfold Binary64.floor. simpl.
    assert (He' : (0 <=? e + s) = false) by (apply Z.leb_gt; lia).
    rewrite He'.
    assert (Hk : 2 ^ (53 - s) <= 2 ^ (- (e + s)))
      by (apply Z.pow_le_mono_r; lia).
    assert (Hk0 : 0 < 2 ^ (53 - s)) by (apply Z.pow_pos_nonneg; lia).
    assert (Hrs : rs < 5 * 2 ^ (53 - s)).
    { assert (Hs3 : s = 1 \/ s = 2 \/ s = 3) by lia.
      destruct Hs3 as [-> | [-> | ->]]; simpl in *; lia. }
    split.
    + apply Z.div_pos; lia.
    + apply Z.div_lt_upper_bound; nia.
Qed.

(** ** The recognition flow *)

Section Recognition.
Import ShazamApp.

Lemma js_index_In {A} (l : list A) (i : Z) (x : A) :
  js_index l i = Some x -> In x l.
Proof.
  unfold js_index. destruct (i <? 0); [done|].
  intros Hx. apply list_elem_of_In. by eapply list_elem_of_lookup_2.
Qed.

Lemma js_index_nat {A} (l : list A) (i : nat) :
  js_index l (Z.of_nat i) = l !! i.
Proof.
  unfold js_index.
  assert (Hi : (Z.of_nat i <? 0) = false) by (apply Z.ltb_ge; lia).
  by rewrite Hi, Nat2Z.id.
Qed.

Lemma stopRecording_timers r env app :
  timers (stopRecording r env app) = timers app.
Proof.
  unfold stopRecording.
  destruct r as [r|]; [|destruct (recording app)]; try done;
    by destruct (stop_succeeds env).
Qed.

Lemma stopRecording_result r env app :
  result (stopRecording r env app) = result app \/
  result (stopRecording r env app)
    = js_index mockSongs (songIndex (random env)).
Proof.
  unfold stopRecording.
  destruct r as [r|]; [|destruct (recording app)]; try (by left);
    destruct (stop_succeeds env); (by left) || (by right).
Qed.

Lemma startRecording_invariant env app :
  recognition_invariant app -> recognition_invariant (startRecording env app).
Proof.
  intros [Ht Hr]. unfold startRecording.
  destruct (hasPermission app); simpl.
  - destruct (audio_mode_set env); simpl; [|by split].
    destruct (created env) as [r|]; simpl; [|by split].
    split; simpl; [|done].
    intros timer Hin. apply in_app_or in Hin as [Hin|[<-|[]]]; [auto|done].
  - destruct (permission_status env); by split.
Qed.

Lemma step_invariant app ev :
  recognition_invariant app -> recognition_invariant (step app ev).
Proof.
  intros Hinv. destruct ev as [[status|]| |env|n env]; simpl; try done.
  - unfold press. destruct (isRecording app); [done|].
    by apply startRecording_invariant.
  - destruct (timers app !! n) as [timer|] eqn:Hn; [|done].
    destruct Hinv as [Ht Hr]. split.
    + rewrite stopRecording_timers. simpl. intros t Hin. apply Ht.
      apply list_elem_of_In in Hin. apply list_elem_of_In.
      by eapply list_elem_of_delete_inv.
    + intros song.
      destruct (stopRecording_result (Some (target timer)) env
                  (clearTimer n app)) as [-> | ->].
      * apply Hr.
      * apply js_index_In.
Qed.

Lemma run_invariant_from events app :
  recognition_invariant app ->
  recognition_invariant (fold_left step events app).
Proof.
  revert app. induction events as [|ev events IH]; intros app Hinv; [done|].
  simpl. apply IH. by apply step_invariant.
Qed.

(** Forgetting the captured audio commutes with every step. *)
Lemma step_silence app ev :
  silence_app (step app ev) = step (silence_app app) (silence_event ev).
Proof.
  destruct ev as [[status|]| |env|n env]; simpl; try done.
  - unfold press, startRecording. simpl.
    destruct (isRecording app); [done|].
    destruct (hasPermission app); simpl.
    + destruct (audio_mode_set env); [|done].
      destruct (created env) as [r|]; simpl; [|done].
      unfold silence_app. simpl. by rewrite fmap_app.
    + by destruct (permission_status env).
  - rewrite list_lookup_fmap.
    destruct (timers app !! n) as [timer|]; simpl; [|done].
    unfold stopRecording. destruct (stop_succeeds env); simpl.
    + unfold silence_app, saveHistory, setResult, setRecording,
        setIsRecording, clearTimer. simpl. by rewrite list_fmap_delete.
    + unfold silence_app, console_error, clearTimer. simpl.
      by rewrite list_fmap_delete.
Qed.

Lemma run_silence_from events app :
  silence_app (fold_left step events app)
  = fold_left step (map silence_event events) (silence_app app).
Proof.
  revert app. induction events as [|ev events IH]; intros app; [done|].
  simpl. by rewrite IH, step_silence.
Qed.

(** Runs that differ only in the captured audio display the same result. *)
Lemma result_ignores_audio events events' :
  map silence_event events = map silence_event events' ->
  result (run events) = result (run events').
Proof.
  intros Heq.
  change (result (silence_app (run events))
          = result (silence_app (run events'))).
  unfold run. by rewrite !run_silence_from, Heq.
Qed.

Lemma history_step app ev : history app = [] -> history (step app ev) = [].
Proof.
  intros Hh. destruct ev as [[status|]| |env|n env]; simpl; try done.
  - unfold press, startRecording.
    destruct (isRecording app), (hasPermission app),
      (permission_status env), (audio_mode_set env), (created env); done.
  - destruct (timers app !! n) as [timer|]; [|done].
    unfold stopRecording. by destruct (stop_succeeds env).
Qed.

Lemma history_run_from events app :
  history app = [] -> history (fold_left step events app) = [].
Proof.
  revert app. induction events as [|ev events IH]; intros app Hh; [done|].
  simpl. apply IH. by apply history_step.
Qed.
End Recognition.

(** C1.  In the recognition flow: a started recording gets exactly one timer,
    of 3000 ms, whose callback stops that recording; after any events every
    pending timer is such a timer and a displayed result is one of the five
    mock songs; when a timer's [stopRecording] completes, the index
    [Math.floor(Math.random() * 5)] is within 0..4 and the result is the mock
    song at that index and the recording flag is cleared; the result is the
    same whichever recording, with whatever captured audio, is stopped, and
    two runs that differ only in the audio captured display the same
    result. *)
Theorem recognition_is_a_timer_and_a_random_song :
  forall events : list ShazamApp.Event,
    let app := ShazamApp.run events in
    map ShazamApp.title ShazamApp.mockSongs
      = ["Blinding Lights"; "Shape of You"; "Levitating";
         "Watermelon Sugar"; "Bad Guy"]%string /\
    (forall env newRecording,
        ShazamApp.isRecording app = false ->
        ShazamApp.hasPermission app = true ->
        ShazamApp.audio_mode_set env = true ->
        ShazamApp.created env = Some newRecording ->
        ShazamApp.timers (ShazamApp.step app (ShazamApp.ButtonPressed env))
          = ShazamApp.timers app ++ [ShazamApp.mkTimer 3000 newRecording]) /\
    (forall timer,
        In timer (ShazamApp.timers app) -> ShazamApp.delay_ms timer = 3000) /\
    (forall song,
        ShazamApp.result app = Some song -> In song ShazamApp.mockSongs) /\
    (forall n timer env,
        ShazamApp.timers app !! n = Some timer ->
        ShazamApp.is_unit_double (ShazamApp.random env) = true ->
        ShazamApp.stop_succeeds env = true ->
        exists i : nat,
          (i < length ShazamApp.mockSongs)%nat /\
          ShazamApp.songIndex (ShazamApp.random env) = Z.of_nat i /\
          ShazamApp.result (ShazamApp.step app (ShazamApp.TimerFired n env))
            = ShazamApp.mockSongs !! i /\
          is_Some (ShazamApp.mockSongs !! i) /\
          ShazamApp.isRecording
            (ShazamApp.step app (ShazamApp.TimerFired n env)) = false) /\
    (forall recording1 recording2 env,
        ShazamApp.result
          (ShazamApp.stopRecording (Some recording1) env app)
        = ShazamApp.result
            (ShazamApp.stopRecording (Some recording2) env app)) /\
    (forall events' : list ShazamApp.Event,
        map silence_event events' = map silence_event events ->
        ShazamApp.result (ShazamApp.run events') = ShazamApp.result app).
Proof.
  intros events app.
  assert (Hinv : recognition_invariant app).
  { apply run_invariant_from. split; [intros ? [] | done]. }
  destruct Hinv as [Htimers Hresult].
  split; [reflexivity|].
  split; [|split; [exact Htimers|split; [exact Hresult|split; [|split]]]].
  - intros env newRecording Hrec Hperm Hmode Hcreated. simpl.
    unfold ShazamApp.press, ShazamApp.startRecording.
    by rewrite Hrec, Hperm, Hmode, Hcreated.
  - intros n timer env Hn Hrandom Hstop.
    pose proof (songIndex_in_bounds _ Hrandom) as Hidx.
    exists (Z.to_nat (ShazamApp.songIndex (ShazamApp.random env))).
    assert (Hlen : length ShazamApp.mockSongs = 5%nat) by reflexivity.
    split; [rewrite Hlen; lia|]. split; [lia|]. split; [|split].
    + simpl. rewrite Hn. unfold ShazamApp.stopRecording. rewrite Hstop. simpl.
      rewrite <- js_index_nat. f_equal. lia.
    + apply lookup_lt_is_Some. rewrite Hlen. lia.
    + simpl. rewrite Hn. unfold ShazamApp.stopRecording. by rewrite Hstop.
  - intros recording1 recording2 env. unfold ShazamApp.stopRecording.
    by destruct (ShazamApp.stop_succeeds env).
  - intros events' Heq. by apply result_ignores_audio.
Qed.

(** C5.  History persistence is a stub: [getHistory] returns the empty list
    and leaves the application as it is, [saveHistory] changes nothing, and
    after any events (any number of completed recognitions) the Library
    screen's history is empty, also once [loadHistory] has run. *)
Theorem history_persistence_is_a_stub :
  forall (events : list ShazamApp.Event) (app : ShazamApp.App)
         (saved : list ShazamApp.HistoryEntry),
    ShazamApp.getHistory app = ([], app) /\
    ShazamApp.saveHistory saved app = app /\
    ShazamApp.history (ShazamApp.run events) = [] /\
    ShazamApp.history (ShazamApp.loadHistory (ShazamApp.run events)) = [].
Proof.
  intros events app saved. repeat split.
  by apply history_run_from.
Qed.

(** C7, as the code has it.  While [isRecording] is true the button is
    disabled and its handler is [undefined]: a press changes nothing at all,
    and nothing is reported on the console either. *)
Theorem press_while_recording_is_ignored :
  forall (env : ShazamApp.StartEnv) (app : ShazamApp.App),
    ShazamApp.isRecording app = true ->
    ShazamApp.press env app = app /\
    ShazamApp.step app (ShazamApp.ButtonPressed env) = app.
Proof.
  intros env app Hrec. simpl. unfold ShazamApp.press. by rewrite Hrec.
Qed.

(** ** DataTransformer *)

Lemma applyTransformation_bytes (bytes : list Z) :
  Forall (fun b => 0 <= b)
         (DataTransformer.applyTransformation bytes).
Proof.
  unfold DataTransformer.applyTransformation. apply Forall_map.
  apply Forall_forall. intros b _. simpl.
  apply Z.lxor_nonneg. unfold UInt8.wrapping_add.
  pose proof (Z.mod_pos_bound (b + 7) 256 ltac:(lia)). lia.
Qed.

Lemma byte_sum_nonneg (bytes : list Z) :
  Forall (fun b => 0 <= b) bytes -> 0 <= byte_sum bytes.
Proof. induction 1; simpl; lia. Qed.

(** [reduce(0, +)] on [UInt8] traps as soon as the running sum passes 255. *)
Lemma reduce_overflows (bytes : list Z) (acc : Z) :
  Forall (fun b => 0 <= b) bytes ->
  0 <= acc <= 255 ->
  255 < acc + byte_sum bytes ->
  oreduce UInt8.add bytes acc = Trapped ArithmeticOverflow.
Proof.
  intros Hbytes. revert acc.
  induction Hbytes as [|b bytes Hb Hbytes IH]; intros acc Hacc Hsum; simpl in *.
  - lia.
  - unfold UInt8.add at 1. destruct (UInt8.fits (acc + b)) eqn:Hf; [|done].
    rewrite obind_Returned.
    unfold UInt8.fits, UInt8.max in Hf.
    apply andb_true_iff in Hf as [_ Hf%Z.leb_le]. apply IH; lia.
Qed.

Lemma reduce_returns (bytes : list Z) (acc : Z) :
  Forall (fun b => 0 <= b) bytes ->
  0 <= acc ->
  acc + byte_sum bytes <= 255 ->
  oreduce UInt8.add bytes acc = Returned (acc + byte_sum bytes).
Proof.
  intros Hbytes. revert acc.
  induction Hbytes as [|b bytes Hb Hbytes IH]; intros acc Hacc Hsum; simpl in *.
  - f_equal. lia.
  - pose proof (byte_sum_nonneg bytes Hbytes).
    unfold UInt8.add at 1.
    assert (Hf : UInt8.fits (acc + b) = true).
    { unfold UInt8.fits, UInt8.max. apply andb_true_iff.
      split; apply Z.leb_le; lia. }
    rewrite Hf, obind_Returned, IH by lia. f_equal. lia.
Qed.

(** C9.  [DataTransformer.transform] is partial: the empty string traps on
    the division by the byte count 0, and every input whose transformed bytes
    sum above 255 traps on the overflow of the [UInt8] sum; neither returns. *)
Theorem transform_is_not_total :
  DataTransformer.transform "" = Trapped DivisionByZero /\
  (forall input : string,
      255 < byte_sum (DataTransformer.applyTransformation
                        (DataTransformer.applyEncoding input)) ->
      DataTransformer.transform input = Trapped ArithmeticOverflow).
Proof.
  split; [reflexivity|].
  intros input Hsum. unfold DataTransformer.transform,
    DataTransformer.applyNormalization.
  rewrite reduce_overflows; [done | apply applyTransformation_bytes | lia..].
Qed.

(** X22.  On every other input [transform] returns the hex string of the
    bytes less their average. *)
Lemma transform_returns (input : string) :
  input <> EmptyString ->
  let bytes := DataTransformer.applyTransformation
                 (DataTransformer.applyEncoding input) in
  byte_sum bytes <= 255 ->
  DataTransformer.transform input
  = Returned
      (DataTransformer.applyFormatting
         (map (fun b => UInt8.wrapping_sub b
                          (byte_sum bytes / Z.of_nat (length bytes)))
              bytes)).
Proof.
  intros Hne bytes Hsum.
  pose proof (applyTransformation_bytes
                (DataTransformer.applyEncoding input)) as Hbytes.
  fold bytes in Hbytes.
  pose proof (byte_sum_nonneg bytes Hbytes) as Hnn.
  assert (Hlen : (0 < length bytes)%nat).
  { unfold bytes, DataTransformer.applyTransformation,
      DataTransformer.applyEncoding.
    rewrite !length_map. destruct input; [done | simpl; lia]. }
  unfold DataTransformer.transform, DataTransformer.applyNormalization.
  fold bytes. rewrite reduce_returns by (done || lia).
  rewrite obind_Returned, Z.add_0_l. unfold UInt8.div.
  assert (Hz : (Z.of_nat (length bytes) =? 0) = false)
    by (apply Z.eqb_neq; lia).
  rewrite Hz, obind_Returned. unfold DataTransformer.to_UInt8.
  assert (Hq : 0 <= byte_sum bytes / Z.of_nat (length bytes) <= 255).
  { split; [apply Z.div_pos; lia|].
    apply Z.div_le_upper_bound; nia. }
  assert (Hf : UInt8.fits (byte_sum bytes / Z.of_nat (length bytes)) = true).
  { unfold UInt8.fits, UInt8.max. apply andb_true_iff.
    split; apply Z.leb_le; lia. }
  by rewrite Hf.
Qed.

Example transform_A : DataTransformer.transform "A" = Returned "00"%string.
Proof. reflexivity. Qed.

Example transform_AB : DataTransformer.transform "AB" = Returned "0001"%string.
Proof. reflexivity. Qed.

Example transform_ABC :
  DataTransformer.transform "ABC" = Trapped ArithmeticOverflow.
Proof. reflexivity. Qed.

(** ** StateMachine *)

Section StateMachineFacts.
Context {State Event Captured : Type}.
Context `{Countable State} `{Countable Event}.
Implicit Types sm : StateMachine.t State Event Captured.
Implicit Types st : StateMachine.Store State Event Captured.
Implicit Types body : StateMachine.Body State Event Captured.

Lemma target_init (s from : State) (event : Event) :
  StateMachine.target (StateMachine.init (Captured:=Captured) s) from event
  = None.
Proof. unfold StateMachine.target. simpl. by rewrite lookup_empty. Qed.

(** [addTransition] registers its target, replacing an earlier one. *)
Lemma target_addTransition sm (from : State) (event : Event) (to : State) :
  StateMachine.target (StateMachine.addTransition from event to sm)
                      from event = Some to.
Proof.
  unfold StateMachine.target, StateMachine.addTransition. simpl.
  rewrite lookup_insert_eq. by rewrite lookup_insert_eq.
Qed.

Lemma target_addTransition_other sm (from from' : State)
    (event event' : Event) (to : State) :
  (from, event) <> (from', event') ->
  StateMachine.target (StateMachine.addTransition from event to sm)
                      from' event'
  = StateMachine.target sm from' event'.
Proof.
  intros Hne. unfold StateMachine.target, StateMachine.addTransition. simpl.
  destruct (decide (from = from')) as [<-|Hfrom].
  - rewrite lookup_insert_eq.
    assert (event <> event') by congruence.
    rewrite lookup_insert_ne by done.
    destruct (StateMachine.transitions sm !! from); [done|].
    by rewrite lookup_empty.
  - by rewrite lookup_insert_ne.
Qed.

(** An observer that does not call back into the machine returns, and leaves
    the machine as it is. *)
Lemma call_inert body :
  inert body ->
  forall st, exists fuel0 captured',
    forall fuel, (fuel0 <= fuel)%nat ->
      StateMachine.call fuel body st
      = Some (StateMachine.mkStore (StateMachine.machine st) captured').
Proof.
  induction body as [|event k IH|from event to k IH|observer IHo k IH
                     |k IH|value k IH]; simpl; intros Hinert st; try done.
  - exists 1%nat, (StateMachine.captured st). intros [|fuel] Hfuel; [lia|].
    by destruct st.
  - destruct (IH (StateMachine.captured st) (Hinert _) st)
      as (fuel0 & captured' & Hcall).
    exists (S fuel0), captured'. intros [|fuel] Hfuel; [lia|].
    simpl. apply Hcall. lia.
  - destruct (IH Hinert
                (StateMachine.mkStore (StateMachine.machine st) value))
      as (fuel0 & captured' & Hcall).
    exists (S fuel0), captured'. intros [|fuel] Hfuel; [lia|].
    simpl. apply Hcall. lia.
Qed.

(** Observers that do not call back into the machine are each called once,
    in order, with the current state. *)
Lemma forEach_inert (array : list (State -> StateMachine.Body State Event Captured)) :
  Forall (fun observer => forall state, inert (observer state)) array ->
  forall st, exists fuel0 captured',
    forall fuel, (fuel0 <= fuel)%nat ->
      StateMachine.forEach (StateMachine.call fuel) array st
      = Some (StateMachine.mkStore
                (StateMachine.mk
                   (StateMachine.currentState (StateMachine.machine st))
                   (StateMachine.transitions (StateMachine.machine st))
                   (StateMachine.observers (StateMachine.machine st))
                   (StateMachine.notified (StateMachine.machine st)
                    ++ map (fun o =>
                              (o, StateMachine.currentState
                                    (StateMachine.machine st)))
                           array))
                captured').
Proof.
  induction 1 as [|observer rest Hobserver _ IH]; intros st.
  - exists 0%nat, (StateMachine.captured st). intros fuel _. simpl.
    rewrite app_nil_r. by destruct st as [[] ?].
  - set (state := StateMachine.currentState (StateMachine.machine st)).
    destruct (call_inert _ (Hobserver state)
                (StateMachine.with_machine
                   (StateMachine.record_call observer state) st))
      as (fuel1 & captured1 & Hcall).
    destruct (IH (StateMachine.mkStore
                    (StateMachine.machine
                       (StateMachine.with_machine
                          (StateMachine.record_call observer state) st))
                    captured1))
      as (fuel2 & captured2 & Hrest).
    exists (Nat.max fuel1 fuel2), captured2. intros fuel Hfuel.
    cbn [StateMachine.forEach]. unfold StateMachine.notify. fold state.
    rewrite Hcall by lia. rewrite Hrest by lia. simpl.
    by rewrite <- app_assoc.
Qed.

Lemma send_without_transition st (event : Event) :
  StateMachine.target (StateMachine.machine st)
    (StateMachine.currentState (StateMachine.machine st)) event = None ->
  forall fuel, StateMachine.send fuel event st = Some (false, st).
Proof.
  intros Hnone fuel. unfold StateMachine.send, StateMachine.send_body.
  by rewrite Hnone.
Qed.

Lemma send_inert st (event : Event) (nextState : State) :
  let sm := StateMachine.machine st in
  StateMachine.target sm (StateMachine.currentState sm) event
  = Some nextState ->
  Forall (fun observer => forall state, inert (observer state))
         (StateMachine.observers sm) ->
  exists fuel0 captured',
    forall fuel, (fuel0 <= fuel)%nat ->
      StateMachine.send fuel event st
      = Some (true,
              StateMachine.mkStore
                (StateMachine.mk
                   nextState (StateMachine.transitions sm)
                   (StateMachine.observers sm)
                   (StateMachine.notified sm
                    ++ map (fun o => (o, nextState))
                           (StateMachine.observers sm)))
                captured').
Proof.
  intros sm Htarget Hinert.
  unfold StateMachine.send, StateMachine.send_body. fold sm.
  rewrite Htarget.
  destruct (forEach_inert _ Hinert
              (StateMachine.with_machine
                 (StateMachine.setCurrentState nextState) st))
    as (fuel0 & captured' & Hall).
  exists fuel0, captured'. intros fuel Hfuel.
  simpl in Hall |- *. by rewrite Hall.
Qed.

(** C10.  [send] is atomic on failure: without a registered transition from
    the current state on the event it returns [false] and nothing has
    changed, no observer having been called.  With one it never returns
    [false]; and when no observer calls back into the machine it returns
    [true], the current state is the registered target, and each observer
    has been called once with it. *)
Theorem send_is_atomic st (event : Event) :
  let sm := StateMachine.machine st in
  (StateMachine.target sm (StateMachine.currentState sm) event = None ->
   forall fuel, StateMachine.send fuel event st = Some (false, st)) /\
  (forall nextState : State,
      StateMachine.target sm (StateMachine.currentState sm) event
        = Some nextState ->
      (forall fuel result st',
          StateMachine.send fuel event st = Some (result, st') ->
          result = true) /\
      (Forall (fun observer => forall state, inert (observer state))
              (StateMachine.observers sm) ->
       exists fuel0 captured',
         forall fuel, (fuel0 <= fuel)%nat ->
           StateMachine.send fuel event st
           = Some (true,
                   StateMachine.mkStore
                     (StateMachine.mk
                        nextState (StateMachine.transitions sm)
                        (StateMachine.observers sm)
                        (StateMachine.notified sm
                         ++ map (fun o => (o, nextState))
                                (StateMachine.observers sm)))
                     captured'))).
Proof.
  intros sm. split; [apply send_without_transition|].
  intros nextState Htarget. split; [|by apply send_inert].
  intros fuel result st'. unfold StateMachine.send, StateMachine.send_body.
  fold sm. rewrite Htarget.
  destruct (StateMachine.forEach _ _ _); [|done]. by intros [= <- _].
Qed.
End StateMachineFacts.

(** ** ComplexAlgorithms: the two sorts *)

Section SortingFacts.
Context {T : Type} {C : Comparable T} {L : LawfulComparable T}.
Implicit Types (a b c pivot : T) (array : list T).

Lemma lt_asym a b : lt a b = true -> lt b a = false.
Proof.
  intros Hab. destruct (lt b a) eqn:Hba; [|done].
  pose proof (lt_trans _ _ _ Hab Hba) as Haa.
  rewrite lt_irrefl in Haa. done.
Qed.

Lemma le_of_lt a b : lt a b = true -> le a b.
Proof. apply lt_asym. Qed.

#[local] Instance le_refl : Reflexive (le (T:=T)).
Proof. intros a. apply lt_irrefl. Qed.

#[local] Instance le_trans : Transitive (le (T:=T)).
Proof.
  intros a b c Hab Hbc. unfold le in *.
  destruct (lt c a) eqn:Hca; [|done].
  destruct (lt_total a b) as [Hlt | [-> | Hlt]]; [|congruence..].
  pose proof (lt_trans _ _ _ Hca Hlt). congruence.
Qed.

#[local] Instance le_antisym : AntiSymm (=) (le (T:=T)).
Proof.
  intros a b Hab Hba. unfold le in *.
  destruct (lt_total a b) as [Hlt | [-> | Hlt]]; congruence.
Qed.

Lemma eqb_refl a : eqb a a = true.
Proof. by apply eqb_spec. Qed.

Lemma lt_not_eqb a b : lt a b = true -> eqb a b = false.
Proof.
  intros Hlt. destruct (eqb a b) eqn:Heq; [|done].
  apply eqb_spec in Heq as ->. rewrite lt_irrefl in Hlt. done.
Qed.

(** *** merge *)

Lemma merge_nil_r (left : list T) : ComplexAlgorithms.merge left [] = left.
Proof. by destruct left. Qed.

Lemma merge_cons_cons l (left : list T) r (right : list T) :
  ComplexAlgorithms.merge (l :: left) (r :: right)
  = if lt l r then l :: ComplexAlgorithms.merge left (r :: right)
    else r :: ComplexAlgorithms.merge (l :: left) right.
Proof. reflexivity. Qed.

Lemma merge_Permutation (left right : list T) :
  left ++ right ≡ₚ ComplexAlgorithms.merge left right.
Proof.
  revert right. induction left as [|l left IHl]; intros right; [done|].
  induction right as [|r right IHr].
  - by rewrite merge_nil_r, app_nil_r.
  - rewrite merge_cons_cons. destruct (lt l r).
    + simpl. by rewrite IHl.
    + rewrite <- IHr. by rewrite <- Permutation_middle.
Qed.

Lemma merge_StronglySorted (left right : list T) :
  StronglySorted le left -> StronglySorted le right ->
  StronglySorted le (ComplexAlgorithms.merge left right).
Proof.
  revert right. induction left as [|l left IHl]; intros right; [done|].
  induction right as [|r right IHr]; intros Hleft Hright.
  - by rewrite merge_nil_r.
  - apply StronglySorted_cons in Hleft as Hl.
    apply StronglySorted_cons in Hright as Hr.
    destruct Hl as [Hl_all Hl], Hr as [Hr_all Hr].
    rewrite merge_cons_cons. destruct (lt l r) eqn:Hlr.
    + apply le_of_lt in Hlr. constructor; [by apply IHl|].
      eapply Permutation_Forall; [apply merge_Permutation|].
      apply Forall_app. split; [done|]. constructor; [done|].
      eapply Forall_impl; [exact Hr_all|]. intros x Hx. by etrans.
    + constructor; [by apply IHr|].
      eapply Permutation_Forall; [apply merge_Permutation|].
      apply Forall_app. split; [|done]. constructor; [done|].
      eapply Forall_impl; [exact Hl_all|]. intros x Hx.
      by etrans; [exact Hlr|].
Qed.

(** *** mergeSort *)

Lemma short_StronglySorted array :
  (length array <= 1)%nat -> StronglySorted le array.
Proof.
  destruct array as [|a [|b array]]; simpl; intros Hlen;
    [constructor | repeat constructor | lia].
Qed.

Lemma mergeSort_rec_S fuel array :
  ComplexAlgorithms.mergeSort_rec (S fuel) array
  = if (length array <=? 1)%nat then Some array
    else
      let middle := (length array / 2)%nat in
      match ComplexAlgorithms.mergeSort_rec fuel (take middle array),
            ComplexAlgorithms.mergeSort_rec fuel (drop middle array) with
      | Some sorted_left, Some sorted_right =>
          Some (ComplexAlgorithms.merge sorted_left sorted_right)
      | _, _ => None
      end.
Proof. reflexivity. Qed.

(** With fuel above the length of the array, [mergeSort] returns a sorted
    permutation of it. *)
Lemma mergeSort_rec_correct fuel array :
  (length array < fuel)%nat ->
  exists sorted,
    ComplexAlgorithms.mergeSort_rec fuel array = Some sorted /\
    StronglySorted le sorted /\ array ≡ₚ sorted.
Proof.
  revert array. induction fuel as [|fuel IH]; intros array Hfuel; [lia|].
  rewrite mergeSort_rec_S. destruct (length array <=? 1)%nat eqn:Hlen.
  - apply Nat.leb_le in Hlen. exists array.
    split; [done|]. split; [by apply short_StronglySorted | done].
  - apply Nat.leb_gt in Hlen. cbv zeta.
    set (middle := (length array / 2)%nat).
    assert (Hmid : (0 < middle < length array)%nat).
    { unfold middle. split.
      - apply Nat.div_str_pos. lia.
      - apply Nat.div_lt; lia. }
    destruct (IH (take middle array)) as (sl & -> & Hsl & Hpl).
    { rewrite length_take. lia. }
    destruct (IH (drop middle array)) as (sr & -> & Hsr & Hpr).
    { rewrite length_drop. lia. }
    eexists. split; [done|]. split; [by apply merge_StronglySorted|].
    rewrite <- merge_Permutation, <- Hpl, <- Hpr.
    by rewrite take_drop.
Qed.

(** *** quickSort *)

Lemma filter_length_lt (f : T -> bool) array a :
  In a array -> f a = false ->
  (length (List.filter f array) < length array)%nat.
Proof.
  induction array as [|b array IH]; simpl; [done|].
  intros [-> | Hin] Hf.
  - rewrite Hf. pose proof (List.filter_length_le f array). lia.
  - specialize (IH Hin Hf). destruct (f b); simpl; lia.
Qed.

(** Every element is in exactly one of [less], [equal], [greater]. *)
Lemma partition_Permutation array pivot :
  array ≡ₚ List.filter (fun x => lt x pivot) array
           ++ List.filter (fun x => eqb x pivot) array
           ++ List.filter (fun x => gt x pivot) array.
Proof.
  induction array as [|a array IH]; [done|]. simpl. unfold gt in *.
  destruct (lt_total a pivot) as [Hlt | [-> | Hgt]].
  - rewrite Hlt, (lt_not_eqb _ _ Hlt), (lt_asym _ _ Hlt). simpl.
    by rewrite <- IH.
  - rewrite lt_irrefl, eqb_refl. simpl.
    by rewrite <- Permutation_middle, <- IH.
  - rewrite Hgt, (lt_asym _ _ Hgt).
    assert (Heq : eqb a pivot = false).
    { destruct (eqb a pivot) eqn:Heq; [|done].
      apply eqb_spec in Heq as ->. by rewrite lt_irrefl in Hgt. }
    rewrite Heq. rewrite app_assoc, <- Permutation_middle, <- app_assoc.
    by rewrite <- IH.
Qed.

Lemma equal_StronglySorted array pivot :
  StronglySorted le (List.filter (fun x => eqb x pivot) array).
Proof.
  induction array as [|a array IH]; simpl; [constructor|].
  destruct (eqb a pivot) eqn:Heq; [|done].
  apply eqb_spec in Heq as ->. constructor; [done|].
  apply Forall_forall. intros x Hx. apply list_elem_of_In in Hx.
  apply filter_In in Hx as [_ Hx].
  apply eqb_spec in Hx as ->. reflexivity.
Qed.

Lemma quickSort_rec_S fuel array :
  ComplexAlgorithms.quickSort_rec (S fuel) array
  = if (length array <=? 1)%nat then Some array
    else
      match array !! (length array / 2)%nat with
      | None => None
      | Some pivot =>
          match ComplexAlgorithms.quickSort_rec fuel
                  (List.filter (fun x => lt x pivot) array),
                ComplexAlgorithms.quickSort_rec fuel
                  (List.filter (fun x => gt x pivot) array) with
          | Some sorted_less, Some sorted_greater =>
              Some (sorted_less
                      ++ List.filter (fun x => eqb x pivot) array
                      ++ sorted_greater)
          | _, _ => None
          end
      end.
Proof. reflexivity. Qed.

(** With fuel above the length of the array, [quickSort] returns a sorted
    permutation of it. *)
Lemma quickSort_rec_correct fuel array :
  (length array < fuel)%nat ->
  exists sorted,
    ComplexAlgorithms.quickSort_rec fuel array = Some sorted /\
    StronglySorted le sorted /\ array ≡ₚ sorted.
Proof.
  revert array. induction fuel as [|fuel IH]; intros array Hfuel; [lia|].
  rewrite quickSort_rec_S. destruct (length array <=? 1)%nat eqn:Hlen.
  - apply Nat.leb_le in Hlen. exists array.
    split; [done|]. split; [by apply short_StronglySorted | done].
  - apply Nat.leb_gt in Hlen.
    destruct (lookup_lt_is_Some_2 array (length array / 2)%nat)
      as [pivot Hpivot]; [apply Nat.div_lt; lia|].
    rewrite Hpivot.
    assert (Hin : In pivot array).
    { apply list_elem_of_In. by eapply list_elem_of_lookup_2. }
    destruct (IH (List.filter (fun x => lt x pivot) array))
      as (sl & -> & Hsl & Hpl).
    { pose proof (filter_length_lt (fun x => lt x pivot) array pivot
                    Hin (lt_irrefl pivot)). lia. }
    destruct (IH (List.filter (fun x => gt x pivot) array))
      as (sg & -> & Hsg & Hpg).
    { pose proof (filter_length_lt (fun x => gt x pivot) array pivot
                    Hin (lt_irrefl pivot)). lia. }
    eexists. split; [done|]. split.
    + assert (Hless : forall x, x ∈ sl -> lt x pivot = true).
      { intros x Hx. rewrite <- Hpl in Hx. apply list_elem_of_In in Hx.
        by apply filter_In in Hx as [_ Hx]. }
      assert (Hgreater : forall x, x ∈ sg -> lt pivot x = true).
      { intros x Hx. rewrite <- Hpg in Hx. apply list_elem_of_In in Hx.
        by apply filter_In in Hx as [_ Hx]. }
      assert (Hequal : forall x,
                 x ∈ List.filter (fun x => eqb x pivot) array -> x = pivot).
      { intros x Hx. apply list_elem_of_In in Hx.
        apply filter_In in Hx as [_ Hx]. by apply eqb_spec. }
      apply StronglySorted_app_2; [|done|].
      * intros x1 x2 Hx1 Hx2. apply Hless in Hx1.
        apply elem_of_app in Hx2 as [Hx2 | Hx2].
        -- apply Hequal in Hx2 as ->. by apply le_of_lt.
        -- apply Hgreater in Hx2. apply le_of_lt.
           by eapply lt_trans.
      * apply StronglySorted_app_2; [|apply equal_StronglySorted|done].
        intros x1 x2 Hx1 Hx2. apply Hequal in Hx1 as ->.
        apply Hgreater in Hx2. by apply le_of_lt.
    + rewrite <- Hpl, <- Hpg. apply partition_Permutation.
Qed.

(** C8.  For every array over a [Comparable] type that meets the
    protocol's requirements, [quickSort] and [mergeSort] both return, with
    the same result: the ascending sorted permutation of the array. *)
Theorem quickSort_mergeSort_agree array :
  exists sorted,
    ComplexAlgorithms.quickSort array = Some sorted /\
    ComplexAlgorithms.mergeSort array = Some sorted /\
    Sorted le sorted /\
    Permutation array sorted.
Proof.
  destruct (quickSort_rec_correct (S (length array)) array)
    as (s1 & Hq & Hs1 & Hp1); [lia|].
  destruct (mergeSort_rec_correct (S (length array)) array)
    as (s2 & Hm & Hs2 & Hp2); [lia|].
  assert (s1 = s2) as <-.
  { apply (StronglySorted_unique le); [done..|]. by rewrite <- Hp1. }
  exists s1. split; [done|]. split; [done|].
  split; [by apply StronglySorted_Sorted | done].
Qed.
End SortingFacts.

(** [Int] meets the requirements of [Comparable]. *)
#[export] Instance Z_LawfulComparable : LawfulComparable Z.
Proof.
  split; simpl.
  - intros a b. apply Z.eqb_eq.
  - intros a. apply Z.ltb_irrefl.
  - intros a b c Hab%Z.ltb_lt Hbc%Z.ltb_lt. apply Z.ltb_lt. lia.
  - intros a b. rewrite !Z.ltb_lt. lia.
Qed.

Example quickSort_Z :
  ComplexAlgorithms.quickSort [3; 1; 2; 3; -5] = Some [-5; 1; 2; 3; 3].
Proof. reflexivity. Qed.

Example mergeSort_Z :
  ComplexAlgorithms.mergeSort [3; 1; 2; 3; -5] = Some [-5; 1; 2; 3; 3].
Proof. reflexivity. Qed.

(** C8, as stated, fails on [Double]: with a NaN as pivot [quickSort] drops
    every element, while [mergeSort] keeps them all. *)
Lemma quickSort_mergeSort_differ_on_NaN :
  ComplexAlgorithms.quickSort
    [Finite (Binary64.of_int 1); NaN; Finite (Binary64.of_int 0)]
  = Some [] /\
  ComplexAlgorithms.mergeSort
    [Finite (Binary64.of_int 1); NaN; Finite (Binary64.of_int 0)]
  = Some [Finite (Binary64.of_int 0); NaN; Finite (Binary64.of_int 1)].
Proof. split; reflexivity. Qed.

(** ** The Fingerprint Index *)

Section FingerprintIndexFacts.
Import FingerprintIndex.
Implicit Types (index : gmap Z Entries) (fp : Fingerprint) (h : Z).

Lemma lookup_remove h trackId index :
  lookup h (remove trackId index)
  = List.filter (fun entry => negb (String.eqb (fst entry) trackId))
                (lookup h index).
Proof.
  unfold lookup, remove. rewrite lookup_fmap.
  by destruct (index !! h).
Qed.

Lemma lookup_append_entry h trackId index fp :
  lookup h (append_entry trackId index fp)
  = lookup h index
      ++ (if hash fp =? h then [(trackId, anchorTimeMs fp)] else []).
Proof.
  unfold append_entry. destruct (hash fp =? h) eqn:Hh.
  - apply Z.eqb_eq in Hh as <-.
    unfold lookup at 1. by rewrite lookup_insert_eq.
  - apply Z.eqb_neq in Hh.
    unfold lookup at 1. rewrite lookup_insert_ne by done.
    by rewrite app_nil_r.
Qed.

Lemma lookup_fold h trackId (fps : list Fingerprint) index :
  lookup h (fold_left (append_entry trackId) fps index)
  = lookup h index
      ++ entries_for h (mkTrack trackId "" "" fps).
Proof.
  revert index. unfold entries_for. simpl.
  induction fps as [|fp fps IH]; intros index; simpl.
  - by rewrite app_nil_r.
  - by rewrite IH, lookup_append_entry, <- app_assoc.
Qed.

(** After [add], a hash maps to the entries of the other tracks followed
    by the track's own fingerprints with that hash, in order. *)
Lemma lookup_add h (track : Track) index :
  lookup h (add track index)
  = List.filter (fun entry => negb (String.eqb (fst entry) (id track)))
                (lookup h index)
      ++ entries_for h track.
Proof. unfold add. by rewrite lookup_fold, lookup_remove. Qed.

Lemma entries_for_own h (track : Track) :
  List.filter (fun entry => negb (String.eqb (fst entry) (id track)))
              (entries_for h track) = [].
Proof.
  unfold entries_for.
  induction (fingerprints track) as [|fp fps IH]; simpl; [done|].
  destruct (hash fp =? h); simpl; [|done].
  by rewrite String.eqb_refl.
Qed.

Lemma filter_filter {A} (f : A -> bool) (l : list A) :
  List.filter f (List.filter f l) = List.filter f l.
Proof.
  induction l as [|x l IH]; simpl; [done|].
  destruct (f x) eqn:Hx; simpl; [|done]. by rewrite Hx, IH.
Qed.

(** C4.  [add] is idempotent per track id: after [add(t); add(t)] every
    [lookup] returns what it returns after a single [add(t)]. *)
Theorem add_is_idempotent :
  forall (track : Track) (index : gmap Z Entries) (h : Z),
    lookup h (add track (add track index)) = lookup h (add track index).
Proof.
  intros track index h. rewrite !lookup_add.
  rewrite List.filter_app, filter_filter, entries_for_own.
  by rewrite app_nil_r.
Qed.

(** Other tracks' entries are kept, in order, by [add]. *)
Lemma add_keeps_others (track : Track) index h (other : string) :
  other <> id track ->
  List.filter (fun entry => String.eqb (fst entry) other)
              (lookup h (add track index))
  = List.filter (fun entry => String.eqb (fst entry) other)
                (lookup h index).
Proof.
  intros Hne. rewrite lookup_add, List.filter_app.
  assert (Hown : List.filter (fun entry => String.eqb (fst entry) other)
                             (entries_for h track) = []).
  { unfold entries_for.
    induction (fingerprints track) as [|fp fps IH]; simpl; [done|].
    destruct (hash fp =? h); simpl; [|done].
    destruct (String.eqb_spec (id track) other); [congruence | done]. }
  rewrite Hown, app_nil_r.
  induction (lookup h index) as [|[tid anchor] entries IH]; simpl; [done|].
  destruct (String.eqb_spec tid (id track)) as [->|Hd]; simpl.
  - destruct (String.eqb_spec (id track) other); [congruence | done].
  - by rewrite IH.
Qed.
End FingerprintIndexFacts.

(** * Instances of the theorems on sample inputs *)

Lemma recognition_witness :
  exists i : nat,
    (i < 5)%nat /\
    ShazamApp.result
      (ShazamApp.step (ShazamApp.run sample_listening)
                      (ShazamApp.TimerFired 0 sample_stop))
    = ShazamApp.mockSongs !! i.
Proof.
  destruct (recognition_is_a_timer_and_a_random_song sample_listening)
    as (_ & _ & _ & _ & Hdone & _ & _).
  destruct (Hdone 0%nat (ShazamApp.mkTimer 3000 sample_recording) sample_stop)
    as (i & Hi & _ & Hresult & _ & _); [reflexivity..|].
  exists i. split; [exact Hi | exact Hresult].
Defined.

Example recognition_sample :
  ShazamApp.result
    (ShazamApp.step (ShazamApp.run sample_listening)
                    (ShazamApp.TimerFired 0 sample_stop))
  = Some (ShazamApp.mkSong "Bad Guy" "Billie Eilish").
Proof. reflexivity. Qed.

(** C7, as stated, fails: the screen is listening, the button is pressed
    again, and no failure is reported: the console stays empty. *)
Lemma second_start_is_not_reported :
  ShazamApp.isRecording (ShazamApp.run sample_listening) = true /\
  ShazamApp.console
    (ShazamApp.press sample_start (ShazamApp.run sample_listening)) = [] /\
  ~ start_reported_as_failed sample_start (ShazamApp.run sample_listening).
Proof.
  split; [reflexivity|]. split; [reflexivity|].
  intros (msg & Hin & _). exact Hin.
Qed.

Lemma press_while_recording_witness :
  ShazamApp.isRecording (ShazamApp.run sample_listening) = true /\
  ShazamApp.press sample_start (ShazamApp.run sample_listening)
  = ShazamApp.run sample_listening.
Proof.
  split; [reflexivity|].
  apply (press_while_recording_is_ignored sample_start
           (ShazamApp.run sample_listening)).
  reflexivity.
Defined.

Lemma quickSort_mergeSort_agree_witness :
  exists sorted : list Z,
    ComplexAlgorithms.quickSort [3; 1; 2] = Some sorted /\
    ComplexAlgorithms.mergeSort [3; 1; 2] = Some sorted /\
    Sorted le sorted /\
    Permutation [3; 1; 2] sorted.
Proof. exact (quickSort_mergeSort_agree (T:=Z) [3; 1; 2]). Defined.

Lemma transform_is_not_total_witness :
  255 < byte_sum (DataTransformer.applyTransformation
                    (DataTransformer.applyEncoding "ABC")) /\
  DataTransformer.transform "ABC" = Trapped ArithmeticOverflow.
Proof.
  split; [reflexivity|].
  apply (proj2 transform_is_not_total "ABC"%string). reflexivity.
Defined.

Lemma send_is_atomic_witness :
  StateMachine.send 0 "stop"%string sample_machine
  = Some (false, sample_machine) /\
  exists fuel0 captured',
    forall fuel, (fuel0 <= fuel)%nat ->
      StateMachine.send fuel "start"%string sample_machine
      = Some (true,
              StateMachine.mkStore
                (StateMachine.mk 1%nat (StateMachine.transitions sample_table)
                                 [counting_observer]
                                 [(counting_observer, 0%nat);
                                  (counting_observer, 1%nat)])
                captured').
Proof.
  split.
  - apply (proj1 (send_is_atomic sample_machine "stop"%string)).
    reflexivity.
  - apply (proj2 (proj2 (send_is_atomic sample_machine "start"%string)
                        1%nat eq_refl)).
    constructor; [|constructor]. intros state value. exact I.
Defined.

(** The sample machine is what [observe] leaves, and [send] on it. *)
Example sample_machine_runs :
  StateMachine.observe 3 counting_observer
    (StateMachine.mkStore sample_table 0%nat) = Some sample_machine /\
  StateMachine.send 3 "start"%string sample_machine
  = Some (true,
          StateMachine.mkStore
            (StateMachine.mk 1%nat (StateMachine.transitions sample_table)
                             [counting_observer]
                             [(counting_observer, 0%nat);
                              (counting_observer, 1%nat)])
            2%nat) /\
  StateMachine.send 2 "start"%string sample_machine = None.
Proof. split; [reflexivity | split; reflexivity]. Qed.

(** C10, as stated, fails: with an observer that sends ["more"] when it is
    told of state 1, [send("start")] finds the transition to state 1
    registered and returns [true], but the current state it leaves is 2. *)
Lemma send_reentrant_ends_elsewhere :
  let sm := StateMachine.machine reentrant_machine in
  StateMachine.target sm (StateMachine.currentState sm) "start"%string
  = Some 1%nat /\
  forall fuel,
    match StateMachine.send fuel "start"%string reentrant_machine with
    | Some (result, st') =>
        (2 <= fuel)%nat /\ result = true /\
        StateMachine.currentState (StateMachine.machine st') = 2%nat
    | None => (fuel < 2)%nat
    end.
Proof.
  split; [reflexivity|].
  intros [|[|[|fuel]]]; vm_compute; repeat split; lia.
Qed.

(** * Further properties of the code *)

(** ** ComplexAlgorithms.fibonacci *)

Lemma fib_step (n : nat) : fib (S (S n)) = fib (S n) + fib n.
Proof.
  unfold fib. simpl. destruct (fib_pair n) as [a b]. simpl. lia.
Qed.

Lemma fib_pair_order (n : nat) :
  0 <= fst (fib_pair n) <= snd (fib_pair n).
Proof.
  induction n as [|n IH]; simpl; [lia|].
  destruct (fib_pair n) as [a b]. simpl in *. lia.
Qed.

Lemma fib_nonneg (n : nat) : 0 <= fib n.
Proof. apply fib_pair_order. Qed.

Lemma fib_succ_le (n : nat) : fib n <= fib (S n).
Proof.
  pose proof (fib_pair_order n) as Ho. unfold fib. simpl.
  destruct (fib_pair n) as [a b]. simpl in *. lia.
Qed.

Lemma fib_mono (m n : nat) : (m <= n)%nat -> fib m <= fib n.
Proof.
  induction 1 as [|n Hle IH]; [lia|].
  pose proof (fib_succ_le n). lia.
Qed.

Lemma fib_value_step (n : Z) :
  2 <= n -> fib_value (n - 1) + fib_value (n - 2) = fib (Z.to_nat n).
Proof.
  intros Hn. unfold fib_value.
  destruct (Z.eq_dec n 2) as [->|Hn2]; [reflexivity|].
  destruct (Z.eq_dec n 3) as [->|Hn3]; [reflexivity|].
  assert (H1 : (n - 1 <=? 1) = false) by (apply Z.leb_gt; lia).
  assert (H2 : (n - 2 <=? 1) = false) by (apply Z.leb_gt; lia).
  rewrite H1, H2.
  replace (Z.to_nat n) with (S (S (Z.to_nat (n - 2)))) by lia.
  replace (Z.to_nat (n - 1)) with (S (Z.to_nat (n - 2))) by lia.
  by rewrite fib_step.
Qed.

Lemma fib_92_fits : fib 92 = 7540113804746346429.
Proof. reflexivity. Qed.

(** The memo table stays sound; up to 92 the helper returns the Fibonacci
    number, from 93 on it traps on the addition. *)
Lemma fibHelper_spec (fuel : nat) (n : Z) (cache : gmap Z Z) :
  cache_sound cache ->
  (Z.to_nat n < fuel)%nat ->
  (n <= 92 ->
   exists cache',
     Fibonacci.fibHelper fuel n cache = Some (Returned (fib_value n, cache'))
     /\ cache_sound cache') /\
  (93 <= n ->
   Fibonacci.fibHelper fuel n cache = Some (Trapped ArithmeticOverflow)).
Proof.
  revert n cache. induction fuel as [|fuel IH]; intros n cache Hc Hfuel; [lia|].
  simpl. destruct (cache !! n) as [cached|] eqn:Hn.
  - destruct (Hc _ _ Hn) as [Hk ->]. split; [|lia].
    intros _. exists cache. split; [|done]. unfold fib_value.
    assert (H1 : (n <=? 1) = false) by (apply Z.leb_gt; lia).
    by rewrite H1.
  - destruct (n <=? 1) eqn:Hle.
    + apply Z.leb_le in Hle. split; [|lia].
      intros _. exists cache. split; [|done]. unfold fib_value.
      assert (H1 : (n <=? 1) = true) by (apply Z.leb_le; lia).
      by rewrite H1.
    + apply Z.leb_gt in Hle.
      destruct (IH (n - 1) cache Hc ltac:(lia)) as [Hlow1 Hhigh1].
      split.
      * intros Hn92.
        destruct Hlow1 as (cache1 & -> & Hc1); [lia|].
        destruct (IH (n - 2) cache1 Hc1 ltac:(lia)) as [Hlow2 _].
        destruct Hlow2 as (cache2 & -> & Hc2); [lia|].
        pose proof (fib_value_step n ltac:(lia)) as Hsum.
        pose proof (fib_nonneg (Z.to_nat n)) as H0.
        pose proof (fib_mono (Z.to_nat n) 92 ltac:(lia)) as Hmax.
        rewrite fib_92_fits in Hmax.
        unfold SwiftInt.add, SwiftInt.checked, SwiftInt.fits,
          SwiftInt.min, SwiftInt.max.
        rewrite Hsum.
        assert (Hfits : (- 2 ^ 63 <=? fib (Z.to_nat n))
                        && (fib (Z.to_nat n) <=? 2 ^ 63 - 1) = true)
          by (apply andb_true_iff; split; apply Z.leb_le; lia).
        rewrite Hfits. eexists. split.
        -- unfold fib_value.
           assert (H1 : (n <=? 1) = false) by (apply Z.leb_gt; lia).
           by rewrite H1.
        -- intros k v Hk.
           destruct (decide (n = k)) as [<-|Hne].
           ++ rewrite lookup_insert_eq in Hk. injection Hk as <-.
              split; [lia | done].
           ++ rewrite lookup_insert_ne in Hk by done. by apply Hc2.
      * intros Hn93.
        destruct (Z.eq_dec n 93) as [->|Hne].
        -- destruct Hlow1 as (cache1 & -> & Hc1); [lia|].
           destruct (IH (93 - 2) cache1 Hc1 ltac:(lia)) as [Hlow2 _].
           destruct Hlow2 as (cache2 & -> & Hc2); [lia|].
           reflexivity.
        -- by rewrite Hhigh1 by lia.
Qed.

(** X1.  [fibonacci(n)] returns [n] itself for [n <= 1] (negative numbers
    included) and the n-th Fibonacci number for [2 <= n <= 92]. *)
Theorem fibonacci_value (n : Z) :
  n <= 92 -> Fibonacci.fibonacci n = Some (Returned (fib_value n)).
Proof.
  intros Hn. unfold Fibonacci.fibonacci.
  destruct (n <=? 1) eqn:Hle.
  - unfold fib_value. by rewrite Hle.
  - destruct (fibHelper_spec (S (Z.to_nat n)) n ∅) as [Hlow _];
      [by intros k v; rewrite lookup_empty | lia |].
    destruct Hlow as (cache' & -> & _); [lia | done].
Qed.

(** X2.  From 93 on [fibonacci] does not return: the memoised recursion
    reaches [F 92 + F 91], which is above [Int.max], and the addition traps. *)
Theorem fibonacci_overflows (n : Z) :
  93 <= n -> Fibonacci.fibonacci n = Some (Trapped ArithmeticOverflow).
Proof.
  intros Hn. unfold Fibonacci.fibonacci.
  assert (Hle : (n <=? 1) = false) by (apply Z.leb_gt; lia).
  rewrite Hle.
  destruct (fibHelper_spec (S (Z.to_nat n)) n ∅) as [_ Hhigh];
    [by intros k v; rewrite lookup_empty | lia |].
  by rewrite Hhigh.
Qed.

Example fibonacci_samples :
  map Fibonacci.fibonacci [-3; 0; 1; 2; 10; 92]
  = map (fun v => Some (Returned v)) [-3; 0; 1; 1; 55; 7540113804746346429].
Proof. vm_compute. reflexivity. Qed.

(** ** mergeSort on any [Comparable] *)

(** X3.  [mergeSort] returns for every array and never loses or invents an
    element, whatever [<] does: also on elements outside the order, such as
    NaN, its result is a permutation of the input. *)
Theorem mergeSort_is_a_permutation {T : Type} {C : Comparable T}
    (array : list T) :
  exists result,
    ComplexAlgorithms.mergeSort array = Some result /\
    Permutation array result.
Proof.
  unfold ComplexAlgorithms.mergeSort.
  assert (Hfuel : (length array < S (length array))%nat) by lia.
  revert Hfuel. generalize (S (length array)) as fuel. intros fuel.
  revert array. induction fuel as [|fuel IH]; intros array Hfuel; [lia|].
  rewrite mergeSort_rec_S. destruct (length array <=? 1)%nat eqn:Hlen.
  - by exists array.
  - apply Nat.leb_gt in Hlen. cbv zeta.
    set (middle := (length array / 2)%nat).
    assert (Hmid : (0 < middle < length array)%nat).
    { unfold middle. split.
      - apply Nat.div_str_pos. lia.
      - apply Nat.div_lt; lia. }
    destruct (IH (take middle array)) as (sl & -> & Hpl).
    { rewrite length_take. lia. }
    destruct (IH (drop middle array)) as (sr & -> & Hpr).
    { rewrite length_drop. lia. }
    eexists. split; [done|].
    rewrite <- merge_Permutation, <- Hpl, <- Hpr.
    by rewrite take_drop.
Qed.

(** ** HeavyProcessor, further *)

Lemma omap_map {A B} (f : A -> Outcome B) (g : A -> B) (l : list A) :
  (forall x, In x l -> f x = Returned (g x)) ->
  omap f l = Returned (map g l).
Proof.
  induction l as [|x l IH]; intros Hf; simpl; [done|].
  rewrite (Hf x) by (by left). rewrite obind_Returned.
  rewrite IH by (intros; apply Hf; by right). by rewrite obind_Returned.
Qed.

(** X4.  [generateSequence(from:count:)] returns the arithmetic progression
    [start, start + 7, ..., start + 7 * (count - 1)] whenever its last
    offset [7 * (count - 1)] and its last term are [Int]s; an empty
    progression for [count = 0]. *)
Theorem generateSequence_progression (start count : Z) :
  0 <= count ->
  SwiftInt.min <= start ->
  7 * (count - 1) <= SwiftInt.max ->
  start + 7 * (count - 1) <= SwiftInt.max ->
  HeavyProcessor.generateSequence start count
  = Returned (map (fun k => start + k * 7) (seqZ 0 count)).
Proof.
  intros Hcount Hmin Hoff Hmax. unfold HeavyProcessor.generateSequence.
  rewrite half_open_range_from_0, obind_Returned by lia.
  apply omap_map. intros k Hk. apply In_seqZ in Hk.
  unfold SwiftInt.mul, SwiftInt.add, SwiftInt.checked, SwiftInt.fits,
    SwiftInt.min, SwiftInt.max in *.
  assert (H1 : (- 2 ^ 63 <=? k * 7) && (k * 7 <=? 2 ^ 63 - 1) = true)
    by (apply andb_true_iff; split; apply Z.leb_le; lia).
  rewrite H1, obind_Returned.
  assert (H2 : (- 2 ^ 63 <=? start + k * 7)
               && (start + k * 7 <=? 2 ^ 63 - 1) = true)
    by (apply andb_true_iff; split; apply Z.leb_le; lia).
  by rewrite H2.
Qed.

Lemma round_mant_nonneg (m e : Z) :
  0 <= m -> 0 <= Binary64.mant (Binary64.round m e).
Proof.
  intros Hm. unfold Binary64.round, Binary64.prec.
  destruct (Z.log2 (Z.abs m) + 1 - 53 <=? 0) eqn:Hs; simpl; [done|].
  apply Z.leb_gt in Hs.
  assert (Hpos : 0 < m).
  { destruct (Z.eq_dec m 0) as [->|]; [simpl in Hs; lia | lia]. }
  rewrite Z.sgn_pos, Z.mul_1_l by done.
  apply round_shift_nearest; lia.
Qed.

Lemma add_mant_nonneg (x y : Binary64.t) :
  0 <= Binary64.mant x -> 0 <= Binary64.mant y ->
  0 <= Binary64.mant (Binary64.add x y).
Proof.
  intros Hx Hy. unfold Binary64.add. apply round_mant_nonneg.
  assert (0 < 2 ^ (Binary64.expo x - Z.min (Binary64.expo x) (Binary64.expo y)))
    by (apply Z.pow_pos_nonneg; lia).
  assert (0 < 2 ^ (Binary64.expo y - Z.min (Binary64.expo x) (Binary64.expo y)))
    by (apply Z.pow_pos_nonneg; lia).
  nia.
Qed.

Lemma gtb_mant_pos (d t : Binary64.t) :
  Binary64.gtb d t = true -> 0 <= Binary64.mant t -> 0 < Binary64.mant d.
Proof.
  unfold Binary64.gtb, Binary64.compare. intros Hgt Ht.
  set (e := Z.min (Binary64.expo d) (Binary64.expo t)) in *.
  assert (0 < 2 ^ (Binary64.expo d - e))
    by (apply Z.pow_pos_nonneg; lia).
  assert (0 < 2 ^ (Binary64.expo t - e))
    by (apply Z.pow_pos_nonneg; lia).
  destruct (Z.compare_spec (Binary64.mant d * 2 ^ (Binary64.expo d - e))
              (Binary64.mant t * 2 ^ (Binary64.expo t - e))); try done.
  nia.
Qed.

Lemma truncate_nonneg (x : Binary64.t) :
  0 <= Binary64.mant x -> 0 <= Binary64.truncate x.
Proof.
  intros Hx. unfold Binary64.truncate.
  destruct (0 <=? Binary64.expo x) eqn:He.
  - apply Z.leb_le in He.
    assert (0 < 2 ^ Binary64.expo x) by (apply Z.pow_pos_nonneg; lia). nia.
  - apply Z.leb_gt in He. apply Z.quot_pos; [done|].
    apply Z.pow_pos_nonneg; lia.
Qed.

Lemma fold_add_nonneg (l : list Binary64.t) (acc : Binary64.t) :
  Forall (fun d => 0 <= Binary64.mant d) l ->
  0 <= Binary64.mant acc ->
  0 <= Binary64.mant (fold_left Binary64.add l acc).
Proof.
  intros Hl. revert acc. induction Hl as [|d l Hd Hl IH]; intros acc Hacc;
    simpl; [done|].
  apply IH. by apply add_mant_nonneg.
Qed.

(** X5.  With a threshold [iteration >= 0], as in the loop of
    [processLargeDataset], [complexCalculation] never returns a negative
    number: only terms above the threshold are summed. *)
Theorem complexCalculation_nonneg (input iteration result : Z) :
  0 <= iteration ->
  HeavyProcessor.complexCalculation input iteration = Returned result ->
  0 <= result.
Proof.
  intros Hi. unfold HeavyProcessor.complexCalculation.
  destruct (HeavyProcessor.generateSequence input 100) as [l|t]; [|done].
  rewrite obind_Returned.
  unfold HeavyProcessor.reduceSequence, Binary64.to_int.
  destruct (SwiftInt.fits _); [|done]. intros [= <-].
  apply truncate_nonneg, fold_add_nonneg; [|done].
  unfold HeavyProcessor.filterSequence. apply Forall_forall.
  intros d Hd. apply list_elem_of_In, filter_In in Hd as [_ Hd].
  apply Z.lt_le_incl. eapply gtb_mant_pos; [exact Hd|].
  by apply round_mant_nonneg.
Qed.

(** ** DataTransformer, further *)

Lemma string_length_append (s1 s2 : string) :
  String.length (s1 ++ s2) = (String.length s1 + String.length s2)%nat.
Proof. induction s1 as [|c s1 IH]; simpl; [done | by rewrite IH]. Qed.

Lemma applyFormatting_length (bytes : list Z) :
  String.length (DataTransformer.applyFormatting bytes)
  = (2 * length bytes)%nat.
Proof.
  unfold DataTransformer.applyFormatting.
  induction bytes as [|b bytes IH]; [done|].
  cbn [map fold_right length]. rewrite string_length_append, IH.
  unfold DataTransformer.format_02x. simpl String.length. lia.
Qed.

Lemma hex_digit_is_hex (d : Z) :
  0 <= d < 16 -> is_hex_digit (DataTransformer.hex_digit d) = true.
Proof.
  intros Hd.
  assert (Hcases : d = 0 \/ d = 1 \/ d = 2 \/ d = 3 \/ d = 4 \/ d = 5 \/
                   d = 6 \/ d = 7 \/ d = 8 \/ d = 9 \/ d = 10 \/ d = 11 \/
                   d = 12 \/ d = 13 \/ d = 14 \/ d = 15) by lia.
  repeat (destruct Hcases as [-> | Hcases]; [reflexivity|]).
  by subst.
Qed.

Lemma applyFormatting_hex (bytes : list Z) :
  Forall (fun b => 0 <= b < 256) bytes ->
  Forall (fun c => is_hex_digit c = true)
         (list_ascii_of_string (DataTransformer.applyFormatting bytes)).
Proof.
  unfold DataTransformer.applyFormatting.
  induction 1 as [|b bytes Hb Hbytes IH]; simpl; [constructor|].
  constructor; [|constructor; [|exact IH]].
  - apply hex_digit_is_hex. split; [apply Z.div_pos; lia|].
    apply Z.div_lt_upper_bound; lia.
  - apply hex_digit_is_hex. apply Z.mod_pos_bound. lia.
Qed.

(** X6.  Whenever [transform] returns, its result is made of lowercase
    hexadecimal digits, two for every byte of the input. *)
Theorem transform_output_shape (input output : string) :
  DataTransformer.transform input = Returned output ->
  String.length output = (2 * String.length input)%nat /\
  Forall (fun c => is_hex_digit c = true) (list_ascii_of_string output).
Proof.
  unfold DataTransformer.transform, DataTransformer.applyNormalization.
  destruct (oreduce _ _ _) as [sum|t]; [|done]. rewrite obind_Returned.
  destruct (UInt8.div _ _) as [quotient|t]; [|done]. rewrite obind_Returned.
  destruct (DataTransformer.to_UInt8 quotient) as [average|t]; [|done].
  rewrite !obind_Returned. intros [= <-]. split.
  - rewrite applyFormatting_length, length_map.
    unfold DataTransformer.applyTransformation, DataTransformer.applyEncoding.
    rewrite !length_map. f_equal.
    induction input as [|c input IH]; simpl; [done | by rewrite IH].
  - apply applyFormatting_hex, Forall_map, Forall_forall. intros b _. simpl.
    unfold UInt8.wrapping_sub. apply Z.mod_pos_bound. lia.
Qed.

(** ** Division of whole doubles *)

(** Two facts about a rounded value [rs * A] within half a unit [H] of [m]. *)
Lemma rounded_not_below (k B rs A H m : Z) :
  0 < H -> A = 2 * H -> k * (A * B) <= m -> m <= rs * A + H -> k * B <= rs.
Proof.
  intros HH HA Hm Hdown.
  destruct (Z_le_gt_dec (k * B) rs) as [|Hgt]; [done|]. exfalso.
  assert (Hmul : (rs + 1) * A <= k * B * A)
    by (apply Z.mul_le_mono_nonneg_r; lia).
  lia.
Qed.

Lemma rounded_below_next (k B rs A H G m : Z) :
  0 < H <= G -> A = 2 * H -> rs * A <= m + H -> m + G < (k + 1) * (A * B) ->
  rs < (k + 1) * B.
Proof.
  intros HH HA Hup Hm.
  destruct (Z_lt_ge_dec rs ((k + 1) * B)) as [|Hge]; [done|]. exfalso.
  assert (Hmul : (k + 1) * B * A <= rs * A)
    by (apply Z.mul_le_mono_nonneg_r; lia).
  lia.
Qed.

Lemma of_int_exact (x : Z) :
  - 2 ^ 53 < x < 2 ^ 53 -> Binary64.of_int x = Binary64.mk x 0.
Proof. intros Hx. apply round_exact. lia. Qed.

(** For whole numbers below [2 ^ 53], the floor of the binary64 quotient is
    the integer quotient: rounding never carries the quotient up to the next
    whole number. *)
Lemma js_floor_div_exact (x d : Z) :
  0 <= x < 2 ^ 53 -> 0 < d < 2 ^ 53 ->
  LibraryScreen.js_floor_div (Binary64.of_int x) d = x / d.
Proof.
  intros Hx Hd. unfold LibraryScreen.js_floor_div.
  rewrite !of_int_exact by lia.
  unfold Binary64.div, Binary64.round_quotient. simpl Binary64.mant.
  simpl Binary64.expo.
  rewrite (Z.sgn_pos d), Z.mul_1_l, (Z.abs_eq d), (Z.abs_eq x) by lia.
  change (0 - 0) with 0.
  destruct (Z.eq_dec x 0) as [->|Hx0].
  { change (Z.sgn 0) with 0. rewrite Z.mul_0_l, Z.div_0_l by lia.
    rewrite round_exact by done. unfold Binary64.floor. simpl.
    assert (Hneg : (0 <=? 0 - (Z.log2 d + 64) - 1) = false).
    { apply Z.leb_gt. pose proof (Z.log2_nonneg d). lia. }
    by rewrite Hneg. }
  rewrite (Z.sgn_pos x), Z.mul_1_l by lia.
  set (L := Z.log2 d).
  assert (HL : 0 <= L < 53).
  { split; [apply Z.log2_nonneg|]. apply Z.log2_lt_pow2; lia. }
  destruct (Z.log2_spec d ltac:(lia)) as [HdL HdU]. fold L in HdL, HdU.
  set (K := L + 64).
  assert (HK : 2 ^ K = 2 ^ L * 2 ^ 64) by (unfold K; apply Z.pow_add_r; lia).
  assert (HL1 : 2 ^ Z.succ L = 2 * 2 ^ L) by (apply Z.pow_succ_r; lia).
  assert (HLpos : 0 < 2 ^ L) by (apply Z.pow_pos_nonneg; lia).
  set (k := x / d).
  pose proof (Z.div_mod x d ltac:(lia)) as Hxd.
  pose proof (Z.mod_pos_bound x d ltac:(lia)) as Hxm. fold k in Hxd.
  assert (Hk0 : 0 <= k) by (apply Z.div_pos; lia).
  set (n := x * 2 ^ K).
  set (q := n / d).
  pose proof (Z.div_mod n d ltac:(lia)) as Hnd.
  pose proof (Z.mod_pos_bound n d ltac:(lia)) as Hnm. fold q in Hnd.
  set (sticky := if n mod d =? 0 then 0 else 1).
  assert (Hst : 0 <= sticky <= 1) by (unfold sticky; destruct (_ =? _); lia).
  set (m := 2 * q + sticky).
  (* bounds on the quotient with its sticky bit *)
  assert (Hqlo : k * 2 ^ K <= q).
  { apply Z.div_le_lower_bound; [lia|]. unfold n. nia. }
  assert (Hqhi : q + 2 ^ 63 < (k + 1) * 2 ^ K).
  { assert (Hn : n <= (k + 1) * d * 2 ^ K - 2 ^ K) by (unfold n; nia).
    assert (Hd63 : d * 2 ^ 63 < 2 ^ K) by nia.
    assert (q * d < ((k + 1) * 2 ^ K - 2 ^ 63) * d) by nia.
    nia. }
  assert (Hmlo : k * (2 * 2 ^ K) <= m) by (unfold m; lia).
  assert (Hmhi : m + 2 ^ 64 < (k + 1) * (2 * 2 ^ K)) by (unfold m; lia).
  assert (Hq63 : 2 ^ 63 <= q).
  { apply Z.div_le_lower_bound; [lia|]. unfold n. nia. }
  assert (Hm64 : 2 ^ 64 <= m) by (unfold m; lia).
  (* the number of bits dropped by the rounding *)
  assert (Hk53 : k * 2 ^ L < 2 ^ 53).
  { assert (k * d <= x) by lia. nia. }
  assert (Hm118 : m < 2 ^ 118).
  { assert (Hsplit : 2 ^ 53 = 2 ^ (53 - L) * 2 ^ L).
    { rewrite <- Z.pow_add_r by lia. f_equal. lia. }
    assert (0 < 2 ^ (53 - L)) by (apply Z.pow_pos_nonneg; lia).
    assert (k + 1 <= 2 ^ (53 - L)) by nia.
    assert ((k + 1) * 2 ^ L <= 2 ^ 53) by nia.
    assert ((k + 1) * (2 * 2 ^ K) <= 2 ^ 53 * 2 ^ 65) by nia.
    change (2 ^ 53 * 2 ^ 65) with (2 ^ 118) in *. lia. }
  assert (Hm53 : m < 2 ^ 53 * (2 * 2 ^ K)).
  { assert (k + 1 <= 2 ^ 53) by nia. nia. }
  unfold Binary64.round, Binary64.prec.
  rewrite (Z.abs_eq m) by lia.
  assert (Hlog : 64 <= Z.log2 m < 118).
  { split; [apply Z.log2_le_pow2; lia | apply Z.log2_lt_pow2; lia]. }
  set (s := Z.log2 m + 1 - 53) in *.
  assert (Hs : 12 <= s <= 65) by (unfold s; lia).
  assert (Hspos : (s <=? 0) = false) by (apply Z.leb_gt; lia).
  rewrite Hspos, (Z.sgn_pos m), Z.mul_1_l by lia.
  destruct (round_shift_nearest m s) as (Hrs0 & Hup & Hdown); [lia..|].
  set (rs := Binary64.round_shift m s) in *.
  set (P := K + 1).
  assert (HP : 2 ^ P = 2 * 2 ^ K).
  { unfold P. rewrite Z.pow_add_r by lia. change (2 ^ 1) with 2. lia. }
  replace (0 - K - 1 + s) with (s - P) by (unfold P; lia).
  assert (HsP : s <= P).
  { assert (Z.log2 m < 53 + P); [|unfold s; lia].
    apply Z.log2_lt_pow2; [lia|]. rewrite Z.pow_add_r, HP by (unfold P, K; lia).
    lia. }
  set (A := 2 ^ s) in *. set (H := 2 ^ (s - 1)) in *.
  assert (HA : A = 2 * H).
  { unfold A, H. rewrite <- Z.pow_succ_r by lia. f_equal. lia. }
  assert (HH : 0 < H <= 2 ^ 64).
  { unfold H. split; [apply Z.pow_pos_nonneg; lia|].
    apply Z.pow_le_mono_r; lia. }
  set (B := 2 ^ (P - s)).
  assert (HB : 0 < B) by (apply Z.pow_pos_nonneg; lia).
  assert (HAB : A * B = 2 * 2 ^ K).
  { unfold A, B. rewrite <- Z.pow_add_r, <- HP by lia. f_equal. lia. }
  assert (Hlo : k * B <= rs).
  { apply (rounded_not_below k B rs A H m); [lia | done | |lia].
    rewrite HAB. lia. }
  assert (Hhi : rs < (k + 1) * B).
  { apply (rounded_below_next k B rs A H (2 ^ 64) m); [lia | done | lia |].
    rewrite HAB. lia. }
  unfold Binary64.floor. simpl Binary64.mant. simpl Binary64.expo.
  destruct (0 <=? s - P) eqn:He.
  - apply Z.leb_le in He. assert (s = P) as HsP' by lia.
    assert (B = 1) as HB1 by (unfold B; rewrite HsP', Z.sub_diag; done).
    replace (s - P) with 0 by lia. rewrite Z.pow_0_r. lia.
  - replace (- (s - P)) with (P - s) by lia. fold B.
    symmetry. apply Z.div_unique with (r := rs - k * B); lia.
Qed.

(** ** LibraryScreen.getTimeAgo *)

Lemma round_mant_nonpos (m e : Z) :
  m <= 0 -> Binary64.mant (Binary64.round m e) <= 0.
Proof.
  intros Hm. unfold Binary64.round, Binary64.prec.
  destruct (Z.log2 (Z.abs m) + 1 - 53 <=? 0) eqn:Hs; simpl; [done|].
  apply Z.leb_gt in Hs.
  assert (Hneg : m < 0).
  { destruct (Z.eq_dec m 0) as [->|]; [simpl in Hs; lia | lia]. }
  rewrite Z.sgn_neg by done.
  destruct (round_shift_nearest (Z.abs m) (Z.log2 (Z.abs m) + 1 - 53))
    as (Hrs & _); lia.
Qed.

(** A negative dividend gives a floor that is not positive. *)
Lemma js_floor_div_negative (x d : Z) :
  - 2 ^ 53 < x < 0 -> 0 < d < 2 ^ 53 ->
  LibraryScreen.js_floor_div (Binary64.of_int x) d <= 0.
Proof.
  intros Hx Hd. unfold LibraryScreen.js_floor_div.
  rewrite !of_int_exact by lia.
  unfold Binary64.div, Binary64.round_quotient. simpl Binary64.mant.
  simpl Binary64.expo.
  rewrite (Z.sgn_pos d), Z.mul_1_l, (Z.abs_eq d), (Z.sgn_neg x) by lia.
  set (K := Z.log2 d + 64).
  set (n := Z.abs x * 2 ^ K).
  assert (Hn : 0 <= n).
  { unfold n. apply Z.mul_nonneg_nonneg; [lia|].
    apply Z.pow_nonneg. lia. }
  assert (Hq : 0 <= n / d) by (apply Z.div_pos; lia).
  set (sticky := if n mod d =? 0 then 0 else 1).
  assert (Hst : 0 <= sticky) by (unfold sticky; destruct (_ =? _); lia).
  pose proof (round_mant_nonpos (-1 * (2 * (n / d) + sticky)) (0 - 0 - K - 1)
                ltac:(lia)) as Hmant.
  set (r := Binary64.round _ _) in *.
  unfold Binary64.floor. destruct (0 <=? Binary64.expo r) eqn:He.
  - apply Z.leb_le in He.
    assert (0 < 2 ^ Binary64.expo r) by (apply Z.pow_pos_nonneg; lia). nia.
  - apply Z.leb_gt in He. apply Z.div_le_upper_bound; [|lia].
    apply Z.pow_pos_nonneg; lia.
Qed.

Lemma elapsed_double (now time : Z) :
  - 2 ^ 53 < now < 2 ^ 53 -> - 2 ^ 53 < time < 2 ^ 53 ->
  - 2 ^ 53 < now - time < 2 ^ 53 ->
  double_sub (Binary64.of_int now) (Binary64.of_int time)
  = Binary64.of_int (now - time).
Proof.
  intros Hnow Htime Hdiff. rewrite !of_int_exact by lia.
  unfold double_sub, Binary64.add. simpl.
  rewrite !Z.mul_1_r. rewrite round_exact by lia. f_equal.
Qed.

(** X7.  For time values of valid JavaScript dates (at most 8.64e15 ms from
    the epoch) less than [2 ^ 53] ms apart, [getTimeAgo] is
    "Just now" below one minute (also for a date in the future), then the
    whole minutes 1..59, the whole hours 1..23 and the whole days elapsed:
    the floors of the binary64 quotients are the integer quotients. *)
Theorem getTimeAgo_buckets (now time : Z) :
  Z.abs now <= 8640000000000000 -> Z.abs time <= 8640000000000000 ->
  - 2 ^ 53 < now - time < 2 ^ 53 ->
  let elapsed := now - time in
  (elapsed < 60000 -> LibraryScreen.getTimeAgo now time = "Just now") /\
  (60000 <= elapsed < 3600000 ->
   LibraryScreen.getTimeAgo now time = pretty (elapsed / 60000) +:+ "m ago"
   /\ 1 <= elapsed / 60000 <= 59) /\
  (3600000 <= elapsed < 86400000 ->
   LibraryScreen.getTimeAgo now time = pretty (elapsed / 3600000) +:+ "h ago"
   /\ 1 <= elapsed / 3600000 <= 23) /\
  (86400000 <= elapsed ->
   LibraryScreen.getTimeAgo now time = pretty (elapsed / 86400000) +:+ "d ago"
   /\ 1 <= elapsed / 86400000).
Proof.
  intros Hnow Htime Hdiff elapsed. unfold LibraryScreen.getTimeAgo.
  rewrite elapsed_double by lia. fold elapsed.
  destruct (Z_lt_ge_dec elapsed 0) as [Hneg | Hpos].
  { pose proof (js_floor_div_negative elapsed 1000 ltac:(lia) ltac:(lia)) as Hs.
    set (seconds := LibraryScreen.js_floor_div _ 1000) in *.
    assert (Hlt : (seconds <? 60) = true) by (apply Z.ltb_lt; lia).
    rewrite Hlt. repeat split; intros; (done || lia). }
  rewrite (js_floor_div_exact elapsed 1000) by lia.
  set (seconds := elapsed / 1000).
  assert (Hs : 0 <= seconds < 2 ^ 53).
  { unfold seconds. split; [apply Z.div_pos; lia|].
    apply Z.div_lt_upper_bound; lia. }
  assert (Hbound : forall b, 0 < b -> (seconds < b <-> elapsed < b * 1000)).
  { intros b Hb. unfold seconds. split; intros Hlt.
    - destruct (Z_lt_ge_dec elapsed (b * 1000)) as [|Hge]; [done|].
      assert (b <= elapsed / 1000) by (apply Z.div_le_lower_bound; lia). lia.
    - apply Z.div_lt_upper_bound; lia. }
  assert (Hdiv : forall b, 0 < b -> seconds / b = elapsed / (1000 * b)).
  { intros b Hb. unfold seconds. apply Z.div_div; lia. }
  pose proof (Hbound 60 ltac:(lia)) as H60.
  pose proof (Hbound 3600 ltac:(lia)) as H3600.
  pose proof (Hbound 86400 ltac:(lia)) as H86400.
  rewrite !js_floor_div_exact by lia.
  rewrite (Hdiv 60), (Hdiv 3600), (Hdiv 86400) by lia.
  change (1000 * 60) with 60000. change (1000 * 3600) with 3600000.
  change (1000 * 86400) with 86400000.
  split; [|split; [|split]].
  - intros He. assert (Hlt : (seconds <? 60) = true) by (apply Z.ltb_lt; lia).
    by rewrite Hlt.
  - intros He.
    assert (H1 : (seconds <? 60) = false) by (apply Z.ltb_ge; lia).
    assert (H2 : (seconds <? 3600) = true) by (apply Z.ltb_lt; lia).
    rewrite H1, H2. split; [done|]. split.
    + apply Z.div_le_lower_bound; lia.
    + assert (elapsed / 60000 < 60) by (apply Z.div_lt_upper_bound; lia). lia.
  - intros He.
    assert (H1 : (seconds <? 60) = false) by (apply Z.ltb_ge; lia).
    assert (H2 : (seconds <? 3600) = false) by (apply Z.ltb_ge; lia).
    assert (H3 : (seconds <? 86400) = true) by (apply Z.ltb_lt; lia).
    rewrite H1, H2, H3. split; [done|]. split.
    + apply Z.div_le_lower_bound; lia.
    + assert (elapsed / 3600000 < 24) by (apply Z.div_lt_upper_bound; lia).
      lia.
  - intros He.
    assert (H1 : (seconds <? 60) = false) by (apply Z.ltb_ge; lia).
    assert (H2 : (seconds <? 3600) = false) by (apply Z.ltb_ge; lia).
    assert (H3 : (seconds <? 86400) = false) by (apply Z.ltb_ge; lia).
    rewrite H1, H2, H3. split; [done|].
    apply Z.div_le_lower_bound; lia.
Qed.

Example getTimeAgo_samples :
  map (LibraryScreen.getTimeAgo 1700000000000)
      [1700000000000; 1699999940001; 1699999940000; 1699996400000;
       1699913600000; 1700000005000]
  = ["Just now"; "Just now"; "1m ago"; "1h ago"; "1d ago"; "Just now"]%string.
Proof. vm_compute. reflexivity. Qed.

(** ** MatrixCalculator, further *)

Lemma omap_lookup {A B} (f : A -> Outcome B) (l : list A) (ys : list B)
    (i : nat) (y : B) :
  omap f l = Returned ys -> ys !! i = Some y ->
  exists x, l !! i = Some x /\ f x = Returned y.
Proof.
  revert ys i. induction l as [|x l IH]; intros ys i; simpl.
  - intros [= <-]. by rewrite lookup_nil.
  - destruct (f x) as [y0|t] eqn:Hx; [|done]. rewrite obind_Returned.
    destruct (omap f l) as [ys'|t]; [|done]. rewrite obind_Returned.
    intros [= <-]. destruct i as [|i]; simpl.
    + intros [= <-]. by exists x.
    + intros Hy. by apply (IH ys').
Qed.

Lemma map_lookup_Some {A B} (f : A -> B) (l : list A) (i : nat) (y : B) :
  map f l !! i = Some y -> exists x, l !! i = Some x /\ y = f x.
Proof.
  revert i. induction l as [|x l IH]; intros i; simpl.
  - by rewrite lookup_nil.
  - destruct i as [|i]; simpl; [intros [= <-]; by exists x | apply IH].
Qed.

Section MatrixCalculatorSymmetry.
Variables sin cos tan sqrt log : Binary64.t -> Binary64.t.
Variable pow : Binary64.t -> Binary64.t -> Binary64.t.

Lemma calculateElement_comm (row col size : Z) :
  calculateElement sin cos tan row col size
  = calculateElement sin cos tan col row size.
Proof.
  unfold calculateElement, SwiftInt.mul. by rewrite (Z.mul_comm row col).
Qed.

(** Each entry of the result is [transformElement] of [calculateElement] at
    its own row and column. *)
Lemma generateMatrix_entry (size : Z) (matrix : list (list Binary64.t))
    (i j : nat) (row : list Binary64.t) (a : Binary64.t) :
  generateMatrix sin cos tan sqrt log pow size = Returned matrix ->
  matrix !! i = Some row -> row !! j = Some a ->
  exists a0,
    calculateElement sin cos tan (Z.of_nat i) (Z.of_nat j) (Z.min size 100)
    = Returned a0 /\
    a = transformElement sqrt log pow a0.
Proof.
  unfold generateMatrix, half_open_range.
  destruct (Z.min size 100 <? 0); [done|]. rewrite obind_Returned.
  destruct (omap _ _) as [raw|t] eqn:Hraw; [|done]. rewrite obind_Returned.
  intros [= <-] Hi Hj. unfold transformMatrix in Hi.
  apply map_lookup_Some in Hi as (raw_row & Hi & ->).
  apply map_lookup_Some in Hj as (a0 & Hj & ->).
  destruct (omap_lookup _ _ _ _ _ Hraw Hi) as (x & Hx & Hrow).
  apply lookup_seqZ in Hx as [-> _]. rewrite obind_Returned in Hrow.
  destruct (omap_lookup _ _ _ _ _ Hrow Hj) as (y & Hy & Ha0).
  apply lookup_seqZ in Hy as [-> _].
  exists a0. split; [|done]. by rewrite !Z.add_0_l in Ha0.
Qed.

(** X8.  The matrix [generateMatrix] returns is symmetric: the entry at
    row i, column j is the entry at row j, column i. *)
Theorem generateMatrix_symmetric (size : Z) (matrix : list (list Binary64.t))
    (i j : nat) (row_i row_j : list Binary64.t) (a b : Binary64.t) :
  generateMatrix sin cos tan sqrt log pow size = Returned matrix ->
  matrix !! i = Some row_i -> row_i !! j = Some a ->
  matrix !! j = Some row_j -> row_j !! i = Some b ->
  a = b.
Proof.
  intros Hm Hi Hij Hj Hji.
  destruct (generateMatrix_entry _ _ _ _ _ _ Hm Hi Hij) as (a0 & Ha0 & ->).
  destruct (generateMatrix_entry _ _ _ _ _ _ Hm Hj Hji) as (b0 & Hb0 & ->).
  rewrite calculateElement_comm in Hb0. congruence.
Qed.
End MatrixCalculatorSymmetry.

(** ** DataTransformer.applyTransformation *)

Lemma transformed_byte_inj (a b : Z) :
  0 <= a < 256 -> 0 <= b < 256 ->
  Z.lxor (UInt8.wrapping_add a 7) 42 = Z.lxor (UInt8.wrapping_add b 7) 42 ->
  a = b.
Proof.
  intros Ha Hb Heq.
  assert (Hadd : UInt8.wrapping_add a 7 = UInt8.wrapping_add b 7).
  { apply (f_equal (fun z => Z.lxor z 42)) in Heq.
    by rewrite !Z.lxor_assoc, Z.lxor_nilpotent, !Z.lxor_0_r in Heq. }
  unfold UInt8.wrapping_add in Hadd.
  destruct (Z_lt_ge_dec (a + 7) 256), (Z_lt_ge_dec (b + 7) 256).
  - rewrite !Z.mod_small in Hadd by lia. lia.
  - rewrite (Z.mod_small (a + 7)) in Hadd by lia.
    replace (b + 7) with (b + 7 - 256 + 1 * 256) in Hadd by lia.
    rewrite Z.mod_add, Z.mod_small in Hadd by lia. lia.
  - rewrite (Z.mod_small (b + 7)) in Hadd by lia.
    replace (a + 7) with (a + 7 - 256 + 1 * 256) in Hadd by lia.
    rewrite Z.mod_add, Z.mod_small in Hadd by lia. lia.
  - replace (a + 7) with (a + 7 - 256 + 1 * 256) in Hadd by lia.
    replace (b + 7) with (b + 7 - 256 + 1 * 256) in Hadd by lia.
    rewrite !Z.mod_add, !Z.mod_small in Hadd by lia. lia.
Qed.

Lemma byte_of_ascii_range (c : ascii) : 0 <= Z.of_N (N_of_ascii c) < 256.
Proof. pose proof (N_ascii_bounded c). lia. Qed.

(** X9.  The byte transformation of [transform] loses nothing: two strings
    with the same transformed bytes are the same string. *)
Theorem applyTransformation_injective (input1 input2 : string) :
  DataTransformer.applyTransformation (DataTransformer.applyEncoding input1)
  = DataTransformer.applyTransformation (DataTransformer.applyEncoding input2)
  -> input1 = input2.
Proof.
  unfold DataTransformer.applyTransformation, DataTransformer.applyEncoding.
  revert input2. induction input1 as [|c1 s1 IH]; intros [|c2 s2]; simpl;
    try done.
  intros [= Hc Hs]. f_equal; [|by apply IH].
  apply transformed_byte_inj in Hc; try apply byte_of_ascii_range.
  apply N2Z.inj in Hc.
  rewrite <- (ascii_N_embedding c1), <- (ascii_N_embedding c2). by rewrite Hc.
Qed.

(** ** Lists *)

Lemma last_cons_default {A} (l : list A) (a d d' : A) :
  List.last (a :: l) d = List.last (a :: l) d'.
Proof.
  revert a. induction l as [|b l IH]; intros a; [done|].
  change (List.last (b :: l) d = List.last (b :: l) d'). apply IH.
Qed.

Lemma last_cons_self {A} (l : list A) (a d : A) :
  List.last l a = List.last (a :: l) d.
Proof.
  destruct l as [|b l]; [done|].
  change (List.last (b :: l) a = List.last (b :: l) d).
  apply last_cons_default.
Qed.

(** ** The recognition screen at its awaits *)

Lemma starting_suspend run s :
  starting (ShazamScreen.suspend run s)
  = starting s ++ List.filter is_starting [run].
Proof.
  unfold starting, ShazamScreen.suspend. cbn [ShazamScreen.suspended].
  apply List.filter_app.
Qed.

Lemma stopping_suspend run s :
  stopping (ShazamScreen.suspend run s) = stopping s ++ stopping_of run.
Proof.
  unfold stopping, ShazamScreen.suspend. cbn [ShazamScreen.suspended].
  rewrite flat_map_app. simpl. by rewrite app_nil_r.
Qed.

(** Resuming the k-th suspended run takes it out of the runs under way and
    puts what it awaits next in its place. *)
Lemma resumed_split k run next app s :
  ShazamScreen.suspended s !! k = Some run ->
  exists starting_before starting_after stopping_before stopping_after,
    starting s
    = starting_before ++ List.filter is_starting [run] ++ starting_after /\
    starting (ShazamScreen.resumed k next app s)
    = starting_before ++ List.filter is_starting next ++ starting_after /\
    stopping s = stopping_before ++ stopping_of run ++ stopping_after /\
    stopping (ShazamScreen.resumed k next app s)
    = stopping_before ++ flat_map stopping_of next ++ stopping_after.
Proof.
  intros Hk. pose proof (take_drop_middle _ _ _ Hk) as Hsplit.
  unfold starting, stopping, ShazamScreen.resumed.
  cbn [ShazamScreen.suspended].
  set (before := take k (ShazamScreen.suspended s)) in *.
  set (after := drop (S k) (ShazamScreen.suspended s)) in *.
  rewrite <- Hsplit.
  exists (List.filter is_starting before), (List.filter is_starting after),
         (flat_map stopping_of before), (flat_map stopping_of after).
  change (run :: after) with ([run] ++ after).
  rewrite !List.filter_app, !flat_map_app.
  repeat split. simpl. by rewrite app_nil_r.
Qed.

Lemma app_of_resumed k next app s :
  ShazamScreen.app (ShazamScreen.resumed k next app s) = app.
Proof. done. Qed.

Lemma starting_with_app app s :
  starting (ShazamScreen.mkScreen app (ShazamScreen.suspended s)) = starting s.
Proof. done. Qed.

Lemma stopping_with_app app s :
  stopping (ShazamScreen.mkScreen app (ShazamScreen.suspended s)) = stopping s.
Proof. done. Qed.

Lemma one_session_of s isRecording recording result timers starts stops :
  ShazamApp.isRecording (ShazamScreen.app s) = isRecording ->
  ShazamApp.recording (ShazamScreen.app s) = recording ->
  ShazamApp.result (ShazamScreen.app s) = result ->
  ShazamApp.timers (ShazamScreen.app s) = timers ->
  starting s = starts ->
  stopping s = stops ->
  (isRecording = true <-> is_Some recording) ->
  (isRecording = true -> result = None /\ starts = []) ->
  (isRecording = false -> timers = [] /\ stops = []) ->
  (length starts <= 1)%nat ->
  (length timers + length stops <= 1)%nat ->
  (forall timer, In timer timers -> recording = Some (ShazamApp.target timer))
  ->
  (forall r, In r stops -> recording = Some r) ->
  one_session s.
Proof. intros <- <- <- <- <- <-. unfold one_session. cbn zeta. done. Qed.

Lemma one_session_unchanged s s' :
  ShazamApp.isRecording (ShazamScreen.app s')
  = ShazamApp.isRecording (ShazamScreen.app s) ->
  ShazamApp.recording (ShazamScreen.app s')
  = ShazamApp.recording (ShazamScreen.app s) ->
  ShazamApp.result (ShazamScreen.app s')
  = ShazamApp.result (ShazamScreen.app s) ->
  ShazamApp.timers (ShazamScreen.app s')
  = ShazamApp.timers (ShazamScreen.app s) ->
  starting s' = starting s ->
  stopping s' = stopping s ->
  one_session s -> one_session s'.
Proof.
  unfold one_session. cbn zeta.
  intros -> -> -> -> -> ->. done.
Qed.

Lemma stopRecording_failed r env app :
  ShazamApp.stop_succeeds env = false ->
  ShazamApp.stopRecording (Some r) env app
  = ShazamApp.console_error "Failed to stop recording" app.
Proof. unfold ShazamApp.stopRecording. by intros ->. Qed.

Lemma stopRecording_succeeded r env app :
  ShazamApp.stop_succeeds env = true ->
  let app' := ShazamApp.stopRecording (Some r) env app in
  ShazamApp.isRecording app' = false /\
  ShazamApp.recording app' = None /\
  ShazamApp.timers app' = ShazamApp.timers app.
Proof. unfold ShazamApp.stopRecording. by intros ->. Qed.

(** One event keeps the screen at one session at most, as long as the button
    is not pressed while a [startRecording] is on its way. *)
Lemma one_session_step s ev :
  (ev = ShazamScreen.Pressed -> starting s = []) ->
  one_session s -> one_session (ShazamScreen.step s ev).
Proof.
  intros Hpaced Hinv.
  pose proof Hinv
    as (Hrec & Hlistening & Hidle & Hstarts & Hends & Htimers & Hstops).
  cbn zeta in *.
  destruct ev as [| | |n|k env|k env]; cbn [ShazamScreen.step].
  - (* Mounted *)
    apply (one_session_unchanged s); try done.
    + rewrite starting_suspend. apply app_nil_r.
    + rewrite stopping_suspend. apply app_nil_r.
  - (* LibraryMounted *)
    by apply (one_session_unchanged s).
  - (* Pressed *)
    unfold ShazamScreen.press.
    destruct (ShazamApp.isRecording (ShazamScreen.app s)) eqn:Hr; [done|].
    unfold ShazamScreen.startRecording.
    destruct (negb _).
    + apply (one_session_unchanged s); try done.
      * rewrite starting_suspend. apply app_nil_r.
      * rewrite stopping_suspend. apply app_nil_r.
    + destruct (Hidle eq_refl) as [Hno_timers Hno_stops].
      apply (one_session_of _ false
               (ShazamApp.recording (ShazamScreen.app s))
               (ShazamApp.result (ShazamScreen.app s))
               [] [ShazamScreen.StartAudioMode] []); try done; try (simpl; lia).
      * rewrite starting_suspend. by rewrite (Hpaced eq_refl).
      * rewrite stopping_suspend. by rewrite Hno_stops.
  - (* TimerFired *)
    destruct (ShazamApp.timers (ShazamScreen.app s) !! n) as [timer|] eqn:Hn;
      [|done].
    destruct (ShazamApp.isRecording (ShazamScreen.app s)) eqn:Hr.
    2:{ destruct (Hidle eq_refl) as [Hno_timers _].
        by rewrite Hno_timers in Hn. }
    destruct (Hlistening eq_refl) as [Hresult Hno_starts].
    destruct (ShazamApp.timers (ShazamScreen.app s)) as [|t [|t' ts]] eqn:Ht;
      [done| |simpl in Hends; lia].
    destruct n as [|n]; [|done]. injection Hn as ->.
    destruct (stopping s) as [|r rs] eqn:Hs; [|simpl in Hends; lia].
    apply (one_session_of _ true
             (ShazamApp.recording (ShazamScreen.app s)) None
             [] [] [ShazamApp.target timer]); try done; try (simpl; lia).
    + simpl. by rewrite Ht.
    + rewrite starting_suspend, starting_with_app, Hno_starts. done.
    + rewrite stopping_suspend, stopping_with_app, Hs. done.
    + intros r [<-|[]]. apply Htimers. by left.
  - (* StartSettled *)
    destruct (ShazamScreen.suspended s !! k) as [run|] eqn:Hk; [|done].
    destruct run as [| | | |r]; cbn [ShazamScreen.resume_start]; [| | | |done].
    + (* MountPermissions *)
      destruct (ShazamApp.permission_status env) as [status|];
        match goal with
        | |- one_session (ShazamScreen.resumed _ ?next ?app _) =>
            destruct (resumed_split k _ next app s Hk)
              as (b & a & sb & sa & Hs1 & Hs2 & Hp1 & Hp2)
        end;
        (apply (one_session_unchanged s); try done;
         [by rewrite Hs1, Hs2 | by rewrite Hp1, Hp2]).
    + (* StartPermissions *)
      destruct (ShazamApp.permission_status env) as [status|];
        match goal with
        | |- one_session (ShazamScreen.resumed _ ?next ?app _) =>
            destruct (resumed_split k _ next app s Hk)
              as (b & a & sb & sa & Hs1 & Hs2 & Hp1 & Hp2)
        end;
        (apply (one_session_unchanged s); try done;
         [by rewrite Hs1, Hs2 | by rewrite Hp1, Hp2]).
    + (* StartAudioMode *)
      destruct (ShazamApp.isRecording (ShazamScreen.app s)) eqn:Hr.
      { destruct (Hlistening eq_refl) as [_ Hno_starts].
        destruct (resumed_split k _ [] (ShazamScreen.app s) s Hk)
          as (b & a & sb & sa & Hs1 & _).
        rewrite Hno_starts in Hs1. by destruct b. }
      destruct (Hidle eq_refl) as [Hno_timers Hno_stops].
      destruct (ShazamApp.audio_mode_set env);
        match goal with
        | |- one_session (ShazamScreen.resumed _ ?next ?app _) =>
            destruct (resumed_split k _ next app s Hk)
              as (b & a & sb & sa & Hs1 & Hs2 & Hp1 & Hp2)
        end;
        rewrite Hs1 in Hstarts; rewrite Hp1 in Hno_stops;
        simpl in Hs2, Hp2, Hstarts, Hno_stops;
        rewrite length_app in Hstarts; simpl in Hstarts.
      * apply (one_session_of _ false
                 (ShazamApp.recording (ShazamScreen.app s))
                 (ShazamApp.result (ShazamScreen.app s))
                 [] (b ++ ShazamScreen.StartCreate :: a) []); try done; try (simpl; lia).
        -- by rewrite Hp2.
        -- rewrite length_app. simpl. lia.
      * apply (one_session_of _ false
                 (ShazamApp.recording (ShazamScreen.app s))
                 (ShazamApp.result (ShazamScreen.app s))
                 [] (b ++ a) []); try done; try (simpl; lia).
        -- by rewrite Hp2.
        -- rewrite length_app. lia.
    + (* StartCreate *)
      destruct (ShazamApp.isRecording (ShazamScreen.app s)) eqn:Hr.
      { destruct (Hlistening eq_refl) as [_ Hno_starts].
        destruct (resumed_split k _ [] (ShazamScreen.app s) s Hk)
          as (b & a & sb & sa & Hs1 & _).
        rewrite Hno_starts in Hs1. by destruct b. }
      destruct (Hidle eq_refl) as [Hno_timers Hno_stops].
      destruct (ShazamApp.created env) as [newRecording|];
        match goal with
        | |- one_session (ShazamScreen.resumed _ ?next ?app _) =>
            destruct (resumed_split k _ next app s Hk)
              as (b & a & sb & sa & Hs1 & Hs2 & Hp1 & Hp2)
        end;
        rewrite Hs1 in Hstarts; rewrite Hp1 in Hno_stops;
        simpl in Hs2, Hp2, Hstarts, Hno_stops;
        rewrite length_app in Hstarts; simpl in Hstarts.
      * destruct b; [|simpl in Hstarts; lia].
        destruct a; [|simpl in Hstarts; lia].
        apply (one_session_of _ true (Some newRecording) None
                 [ShazamApp.mkTimer 3000 newRecording] [] []); try done; try (simpl; lia).
        -- simpl. by rewrite Hno_timers.
        -- by rewrite Hp2.
        -- intros timer [<-|[]]. done.
      * apply (one_session_of _ false
                 (ShazamApp.recording (ShazamScreen.app s))
                 (ShazamApp.result (ShazamScreen.app s))
                 [] (b ++ a) []); try done; try (simpl; lia).
        -- by rewrite Hp2.
        -- rewrite length_app. lia.
  - (* StopSettled *)
    destruct (ShazamScreen.suspended s !! k) as [run|] eqn:Hk; [|done].
    destruct run as [| | | |r]; cbn [ShazamScreen.resume_stop]; try done.
    destruct (resumed_split k _ []
                (ShazamApp.stopRecording (Some r) env (ShazamScreen.app s))
                s Hk)
      as (b & a & sb & sa & Hs1 & Hs2 & Hp1 & Hp2).
    simpl in Hs1, Hs2, Hp1, Hp2.
    destruct (ShazamApp.isRecording (ShazamScreen.app s)) eqn:Hr.
    2:{ destruct (Hidle eq_refl) as [_ Hno_stops].
        rewrite Hno_stops in Hp1. by destruct sb. }
    destruct (Hlistening eq_refl) as [Hresult Hno_starts].
    rewrite Hp1 in Hends. rewrite length_app in Hends. simpl in Hends.
    destruct sb; [|simpl in Hends; lia].
    destruct sa; [|simpl in Hends; lia].
    destruct (ShazamApp.timers (ShazamScreen.app s)) eqn:Ht;
      [|simpl in Hends; lia].
    rewrite <- Hs1, Hno_starts in Hs2.
    destruct (ShazamApp.stop_succeeds env) eqn:Hok.
    + destruct (stopRecording_succeeded r env (ShazamScreen.app s) Hok)
        as (Hr' & Hrec' & Ht').
      apply (one_session_of _ false None
               (ShazamApp.result
                  (ShazamApp.stopRecording (Some r) env (ShazamScreen.app s)))
               [] [] []); try done; try (simpl; lia).
      by rewrite app_of_resumed, Ht', Ht.
    + rewrite (stopRecording_failed r env _ Hok).
      apply (one_session_of _ true
               (ShazamApp.recording (ShazamScreen.app s)) None
               [] [] []); try done; try (simpl; lia).
Qed.

Lemma one_session_initial : one_session ShazamScreen.initial.
Proof.
  unfold one_session. simpl. repeat split; try done; try lia.
Qed.

Lemma one_session_from s events :
  one_session s -> one_press_at_a_time s events ->
  one_session (ShazamScreen.run_from s events).
Proof.
  revert s. induction events as [|ev events IH]; intros s Hinv Hpaced;
    [done|].
  destruct Hpaced as [Hpress Hrest].
  apply IH; [by apply one_session_step | done].
Qed.

(** X10.  As long as the button is not pressed while an earlier
    [startRecording] is still awaiting [setAudioModeAsync] or [createAsync],
    the screen has at most one recognition in flight: [isRecording] holds
    exactly when a recording is held, nothing is displayed meanwhile, and a
    timer is pending only then, at most one, for that very recording. *)
Theorem one_recognition_at_a_time (events : list ShazamScreen.Event) :
  one_press_at_a_time ShazamScreen.initial events ->
  let app := ShazamScreen.app (ShazamScreen.run events) in
  (ShazamApp.isRecording app = true <-> is_Some (ShazamApp.recording app)) /\
  (ShazamApp.isRecording app = true -> ShazamApp.result app = None) /\
  (ShazamApp.isRecording app = false -> ShazamApp.timers app = []) /\
  (length (ShazamApp.timers app) <= 1)%nat /\
  (forall timer,
      In timer (ShazamApp.timers app) ->
      ShazamApp.recording app = Some (ShazamApp.target timer)).
Proof.
  intros Hpaced.
  destruct (one_session_from _ _ one_session_initial Hpaced)
    as (Hrec & Hlistening & Hidle & _ & Hends & Htimers & _).
  cbn zeta in *. repeat split; try done.
  - apply Hrec.
  - apply Hrec.
  - intros Hr. by destruct (Hlistening Hr).
  - intros Hr. by destruct (Hidle Hr).
  - unfold ShazamScreen.run. lia.
Qed.

(** Nothing ends a session that is stuck: the button is disabled, no timer
    is pending and no stop is under way. *)
Lemma stuck_listening_step s ev :
  stuck_listening s -> stuck_listening (ShazamScreen.step s ev).
Proof.
  intros Hstuck.
  pose proof Hstuck as (Hr & Ht & Hresult & Hstarts & Hstops).
  cbn zeta in *.
  destruct ev as [| | |n|k env|k env]; cbn [ShazamScreen.step].
  - unfold stuck_listening. cbn zeta.
    rewrite starting_suspend, stopping_suspend, Hstarts, Hstops. done.
  - done.
  - unfold ShazamScreen.press. by rewrite Hr.
  - by rewrite Ht.
  - destruct (ShazamScreen.suspended s !! k) as [run|] eqn:Hk; [|done].
    destruct run as [| | | |r]; cbn [ShazamScreen.resume_start]; [| | | |done].
    + destruct (ShazamApp.permission_status env) as [status|];
        match goal with
        | |- stuck_listening (ShazamScreen.resumed _ ?next ?app _) =>
            destruct (resumed_split k _ next app s Hk)
              as (b & a & sb & sa & Hs1 & Hs2 & Hp1 & Hp2)
        end;
        simpl in Hs1, Hs2, Hp1, Hp2;
        unfold stuck_listening; cbn zeta;
        rewrite Hs2, Hp2, <- Hs1, <- Hp1, app_of_resumed; done.
    + destruct (ShazamApp.permission_status env) as [status|];
        match goal with
        | |- stuck_listening (ShazamScreen.resumed _ ?next ?app _) =>
            destruct (resumed_split k _ next app s Hk)
              as (b & a & sb & sa & Hs1 & Hs2 & Hp1 & Hp2)
        end;
        simpl in Hs1, Hs2, Hp1, Hp2;
        unfold stuck_listening; cbn zeta;
        rewrite Hs2, Hp2, <- Hs1, <- Hp1, app_of_resumed; done.
    + destruct (resumed_split k _ [] (ShazamScreen.app s) s Hk)
        as (b & a & sb & sa & Hs1 & _).
      rewrite Hstarts in Hs1. by destruct b.
    + destruct (resumed_split k _ [] (ShazamScreen.app s) s Hk)
        as (b & a & sb & sa & Hs1 & _).
      rewrite Hstarts in Hs1. by destruct b.
  - destruct (ShazamScreen.suspended s !! k) as [run|] eqn:Hk; [|done].
    destruct run as [| | | |r]; cbn [ShazamScreen.resume_stop]; try done.
    destruct (resumed_split k _ [] (ShazamScreen.app s) s Hk)
      as (b & a & sb & sa & _ & _ & Hp1 & _).
    rewrite Hstops in Hp1. by destruct sb.
Qed.

Lemma stuck_listening_from s events :
  stuck_listening s -> stuck_listening (ShazamScreen.run_from s events).
Proof.
  revert s. induction events as [|ev events IH]; intros s Hstuck; [done|].
  apply IH. by apply stuck_listening_step.
Qed.

(** X11.  When the button has not been pressed while a [startRecording] was
    on its way and [stopAndUnloadAsync] then fails in [stopRecording], the
    failure is logged and the screen is left listening for good: whatever
    happens afterwards, [isRecording] stays true (so the button stays
    disabled), no timer is pending and no result is displayed. *)
Theorem failed_stop_leaves_screen_listening
    (events later : list ShazamScreen.Event) (k : nat)
    (r : ShazamApp.Recording) (env : ShazamApp.StopEnv) :
  one_press_at_a_time ShazamScreen.initial events ->
  ShazamScreen.suspended (ShazamScreen.run events) !! k
  = Some (ShazamScreen.StopUnload r) ->
  ShazamApp.stop_succeeds env = false ->
  let failed := ShazamScreen.step (ShazamScreen.run events)
                                  (ShazamScreen.StopSettled k env) in
  ShazamApp.console (ShazamScreen.app failed)
  = ShazamApp.console (ShazamScreen.app (ShazamScreen.run events))
    ++ ["Failed to stop recording"] /\
  let app := ShazamScreen.app (ShazamScreen.run_from failed later) in
  ShazamApp.isRecording app = true /\
  ShazamApp.timers app = [] /\
  ShazamApp.result app = None.
Proof.
  intros Hpaced Hk Hfails failed.
  pose proof (one_session_from _ _ one_session_initial Hpaced) as Hinv.
  fold (ShazamScreen.run events) in Hinv.
  set (s := ShazamScreen.run events) in *.
  destruct Hinv as (Hrec & Hlistening & Hidle & _ & Hends & _ & _).
  cbn zeta in *.
  assert (Hfailed : failed
                    = ShazamScreen.resumed k []
                        (ShazamApp.console_error "Failed to stop recording"
                                                 (ShazamScreen.app s)) s).
  { unfold failed. cbn [ShazamScreen.step]. rewrite Hk.
    cbn [ShazamScreen.resume_stop].
    by rewrite (stopRecording_failed r env _ Hfails). }
  split; [by rewrite Hfailed|].
  destruct (resumed_split k _ []
              (ShazamApp.console_error "Failed to stop recording"
                                       (ShazamScreen.app s)) s Hk)
    as (b & a & sb & sa & Hs1 & Hs2 & Hp1 & Hp2).
  simpl in Hs1, Hs2, Hp1, Hp2.
  destruct (ShazamApp.isRecording (ShazamScreen.app s)) eqn:Hr.
  2:{ destruct (Hidle eq_refl) as [_ Hno_stops].
      rewrite Hno_stops in Hp1. by destruct sb. }
  destruct (Hlistening eq_refl) as [Hresult Hno_starts].
  rewrite Hp1 in Hends. rewrite length_app in Hends. simpl in Hends.
  destruct sb; [|simpl in Hends; lia].
  destruct sa; [|simpl in Hends; lia].
  destruct (ShazamApp.timers (ShazamScreen.app s)) eqn:Ht;
    [|simpl in Hends; lia].
  assert (Hstuck : stuck_listening failed).
  { rewrite Hfailed. unfold stuck_listening. cbn zeta.
    rewrite Hs2, Hp2, <- Hs1, Hno_starts, app_of_resumed. simpl.
    by rewrite Hr, Ht, Hresult. }
  destruct (stuck_listening_from _ later Hstuck) as (? & ? & ? & _).
  done.
Qed.

Lemma presses_suspend app (l : list ShazamScreen.Suspended) (n : nat) :
  ShazamApp.hasPermission app = true ->
  ShazamApp.isRecording app = false ->
  ShazamScreen.run_from (ShazamScreen.mkScreen app l)
                        (replicate n ShazamScreen.Pressed)
  = ShazamScreen.mkScreen app (l ++ replicate n ShazamScreen.StartAudioMode).
Proof.
  intros Hp Hr. revert l. induction n as [|n IH]; intros l.
  - simpl. by rewrite app_nil_r.
  - cbn [replicate]. unfold ShazamScreen.run_from. cbn [fold_left].
    fold (ShazamScreen.run_from
            (ShazamScreen.step (ShazamScreen.mkScreen app l)
                               ShazamScreen.Pressed)
            (replicate n ShazamScreen.Pressed)).
    cbn [ShazamScreen.step]. unfold ShazamScreen.press.
    cbn [ShazamScreen.app]. rewrite Hr.
    unfold ShazamScreen.startRecording. cbn [ShazamScreen.app]. rewrite Hp.
    cbn [negb]. unfold ShazamScreen.suspend.
    cbn [ShazamScreen.app ShazamScreen.suspended].
    rewrite IH. by rewrite <- app_assoc.
Qed.

Lemma settle_starts app (rs : list ShazamApp.Recording) :
  ShazamScreen.run_from
    (ShazamScreen.mkScreen app
       (replicate (length rs) ShazamScreen.StartAudioMode))
    (flat_map settle_start rs)
  = ShazamScreen.mkScreen (fold_left started rs app) [].
Proof.
  revert app. induction rs as [|r rs IH]; intros app; [done|].
  cbn [flat_map length replicate]. unfold ShazamScreen.run_from.
  rewrite fold_left_app. cbn [settle_start fold_left].
  fold (ShazamScreen.run_from
          (ShazamScreen.mkScreen (started app r)
             (replicate (length rs) ShazamScreen.StartAudioMode))
          (flat_map settle_start rs)) in IH |- *.
  rewrite <- IH. reflexivity.
Qed.

Lemma started_fields app (rs : list ShazamApp.Recording) :
  let app' := fold_left started rs app in
  ShazamApp.timers app'
  = ShazamApp.timers app ++ map (ShazamApp.mkTimer 3000) rs /\
  ShazamApp.recording app'
  = List.last (map Some rs) (ShazamApp.recording app) /\
  (rs <> [] -> ShazamApp.isRecording app' = true).
Proof.
  revert app. induction rs as [|r rs IH]; intros app.
  - simpl. by rewrite app_nil_r.
  - cbn zeta. cbn [fold_left].
    destruct (IH (started app r)) as (Ht & Hrec & Hr). cbn zeta in *.
    rewrite Ht, Hrec. simpl ShazamApp.timers. simpl ShazamApp.recording.
    split; [by rewrite <- app_assoc|]. split.
    + destruct rs as [|r' rs]; [done|]. cbn [map].
      change (List.last (Some r' :: map Some rs) (Some r)
              = List.last (Some r' :: map Some rs) (ShazamApp.recording app)).
      apply last_cons_default.
    + intros _. destruct rs as [|r' rs]; [done|]. by apply Hr.
Qed.

(** X25.  The guard of the button does not bound the sessions: every press
    made before the first [createAsync] has resolved starts a recording and a
    3-second timer of its own, and the screen holds the last recording
    only. *)
Theorem presses_in_the_await_window (app : ShazamApp.App)
    (rs : list ShazamApp.Recording) :
  ShazamApp.hasPermission app = true ->
  ShazamApp.isRecording app = false ->
  let s := ShazamScreen.run_from
             (ShazamScreen.mkScreen app [])
             (replicate (length rs) ShazamScreen.Pressed
              ++ flat_map settle_start rs) in
  ShazamScreen.suspended s = [] /\
  ShazamApp.timers (ShazamScreen.app s)
  = ShazamApp.timers app ++ map (ShazamApp.mkTimer 3000) rs /\
  ShazamApp.recording (ShazamScreen.app s)
  = List.last (map Some rs) (ShazamApp.recording app) /\
  (rs <> [] -> ShazamApp.isRecording (ShazamScreen.app s) = true).
Proof.
  intros Hp Hr s. subst s. unfold ShazamScreen.run_from.
  rewrite fold_left_app.
  fold (ShazamScreen.run_from (ShazamScreen.mkScreen app [])
          (replicate (length rs) ShazamScreen.Pressed)).
  rewrite (presses_suspend app [] _ Hp Hr).
  fold (ShazamScreen.run_from
          (ShazamScreen.mkScreen app
             ([] ++ replicate (length rs) ShazamScreen.StartAudioMode))
          (flat_map settle_start rs)).
  rewrite app_nil_l, settle_starts. split; [done|].
  apply started_fields.
Qed.

Lemma serial_step app (ev : ShazamApp.Event) :
  ShazamScreen.run_from (ShazamScreen.mkScreen app []) (ShazamScreen.serial ev)
  = ShazamScreen.mkScreen (ShazamApp.step app ev) [].
Proof.
  destruct ev as [[status|]| |env|n env]; try done.
  - (* ButtonPressed *)
    unfold ShazamScreen.run_from. cbn [ShazamScreen.serial fold_left].
    cbn [ShazamScreen.step ShazamApp.step].
    unfold ShazamScreen.press, ShazamApp.press. cbn [ShazamScreen.app].
    destruct (ShazamApp.isRecording app); [done|].
    unfold ShazamScreen.startRecording, ShazamApp.startRecording.
    cbn [ShazamScreen.app].
    destruct (ShazamApp.hasPermission app); cbn [negb].
    + simpl. destruct (ShazamApp.audio_mode_set env); simpl; [|done].
      by destruct (ShazamApp.created env).
    + simpl. by destruct (ShazamApp.permission_status env).
  - (* TimerFired *)
    unfold ShazamScreen.run_from. cbn [ShazamScreen.serial fold_left].
    cbn [ShazamScreen.step ShazamApp.step ShazamScreen.app].
    by destruct (ShazamApp.timers app !! n).
Qed.

Lemma serial_paced app (ev : ShazamApp.Event) :
  one_press_at_a_time (ShazamScreen.mkScreen app []) (ShazamScreen.serial ev).
Proof.
  destruct ev as [status| |env|n env]; simpl; repeat split; done.
Qed.

Lemma one_press_at_a_time_app s events events' :
  one_press_at_a_time s events ->
  one_press_at_a_time (ShazamScreen.run_from s events) events' ->
  one_press_at_a_time s (events ++ events').
Proof.
  revert s. induction events as [|ev events IH]; intros s; [done|].
  intros [Hpress Hrest] Hnext. split; [done|]. by apply IH.
Qed.

(** X26.  [ShazamApp] is the screen on the schedules in which the promises of
    every event settle before the next event: it ends in the same state, with
    nothing suspended, and on such a schedule the button is never pressed
    while a [startRecording] is on its way. *)
Theorem serial_schedule (events : list ShazamApp.Event) :
  ShazamScreen.run (flat_map ShazamScreen.serial events)
  = ShazamScreen.mkScreen (ShazamApp.run events) [] /\
  one_press_at_a_time ShazamScreen.initial
                      (flat_map ShazamScreen.serial events).
Proof.
  unfold ShazamScreen.run, ShazamApp.run, ShazamScreen.initial.
  generalize ShazamApp.initial as app.
  induction events as [|ev events IH]; intros app; [done|].
  cbn [flat_map fold_left]. destruct (IH (ShazamApp.step app ev)) as [Hrun Hp].
  split.
  - unfold ShazamScreen.run_from in *. rewrite fold_left_app.
    pose proof (serial_step app ev) as Hstep.
    unfold ShazamScreen.run_from in Hstep. by rewrite Hstep.
  - apply one_press_at_a_time_app; [apply serial_paced|].
    by rewrite serial_step.
Qed.

(** ** GenericRepository *)

(** X12.  A [GenericRepository] never holds anything: [save] stores nothing,
    so after any saves and deletes on a new repository [find] returns [nil]
    for every id and [findAll] returns the empty array. *)
Theorem repository_stays_empty {T ID : Type} `{Countable ID}
    (operations : list (GenericRepository.Operation T ID)) (id : ID) :
  let repo := fold_left GenericRepository.apply operations
                        GenericRepository.init in
  GenericRepository.find id repo = None /\
  GenericRepository.findAll repo = [].
Proof.
  intros repo.
  assert (Hempty : GenericRepository.storage repo = ∅).
  { unfold repo.
    assert (Hinit : GenericRepository.storage
                      (GenericRepository.init (T:=T) (ID:=ID)) = ∅) by done.
    revert Hinit. generalize (GenericRepository.init (T:=T) (ID:=ID)).
    induction operations as [|op operations IH]; intros r Hr; [done|].
    simpl. apply IH. destruct op as [entity|id']; simpl; [done|].
    rewrite Hr. apply delete_empty. }
  unfold GenericRepository.find, GenericRepository.findAll.
  rewrite Hempty. split; [apply lookup_empty|].
  by rewrite map_to_list_empty.
Qed.

(** ** StateMachine, further *)

Section StateMachineRuns.
Context {State Event Captured : Type}.
Context `{Countable State} `{Countable Event}.
Implicit Types sm : StateMachine.t State Event Captured.
Implicit Types st : StateMachine.Store State Event Captured.

(** X13.  [addTransition] registers exactly one transition: the pair it is
    given now leads to the new target, replacing an earlier one, every other
    pair is as before, and the current state and observers are untouched. *)
Theorem addTransition_registers sm (from from' : State) (event event' : Event)
    (to : State) :
  let sm' := StateMachine.addTransition from event to sm in
  StateMachine.target sm' from' event'
  = (if decide (from = from' /\ event = event') then Some to
     else StateMachine.target sm from' event') /\
  StateMachine.currentState sm' = StateMachine.currentState sm /\
  StateMachine.observers sm' = StateMachine.observers sm /\
  StateMachine.notified sm' = StateMachine.notified sm.
Proof.
  intros sm'. split; [|done].
  destruct (decide (from = from' /\ event = event')) as [[<- <-]|Hne].
  - apply target_addTransition.
  - apply target_addTransition_other. intros [= <- <-]. by apply Hne.
Qed.

Lemma entered_ext sm1 sm2 (state : State) (events : list Event) :
  StateMachine.transitions sm1 = StateMachine.transitions sm2 ->
  entered sm1 state events = entered sm2 state events.
Proof.
  intros Hext. revert state.
  induction events as [|event events IH]; intros state; simpl; [done|].
  unfold StateMachine.target. rewrite Hext.
  fold (StateMachine.target sm2 state event).
  destruct (StateMachine.target sm2 state event); by rewrite IH.
Qed.

(** X14.  When no observer calls back into the machine, the machine follows
    its transition table over any sequence of events: it ends in the last
    state entered (or stays where it was), its table and observers are
    unchanged, and every observer has been told of each state entered, in
    order, and of nothing else. *)
Theorem send_all_follows_the_table st (events : list Event) :
  let sm := StateMachine.machine st in
  Forall (fun observer => forall state, inert (observer state))
         (StateMachine.observers sm) ->
  let states := entered sm (StateMachine.currentState sm) events in
  exists fuel0 captured',
    forall fuel, (fuel0 <= fuel)%nat ->
      send_all fuel events st
      = Some (StateMachine.mkStore
                (StateMachine.mk
                   (List.last states (StateMachine.currentState sm))
                   (StateMachine.transitions sm)
                   (StateMachine.observers sm)
                   (StateMachine.notified sm
                    ++ flat_map (fun state =>
                                   map (fun o => (o, state))
                                       (StateMachine.observers sm))
                                states))
                captured').
Proof.
  revert st. induction events as [|event events IH]; intros st sm Hinert.
  - exists 0%nat, (StateMachine.captured st). intros fuel _. simpl.
    rewrite app_nil_r. subst sm. by destruct st as [[] ?].
  - cbn zeta. cbn [entered send_all].
    destruct (StateMachine.target sm (StateMachine.currentState sm) event)
      as [next|] eqn:Htarget.
    + destruct (send_inert st event next Htarget Hinert)
        as (fuel1 & captured1 & Hsend).
      set (st1 := StateMachine.mkStore
                    (StateMachine.mk next (StateMachine.transitions sm)
                       (StateMachine.observers sm)
                       (StateMachine.notified sm
                        ++ map (fun o => (o, next))
                               (StateMachine.observers sm)))
                    captured1) in *.
      destruct (IH st1 Hinert) as (fuel2 & captured2 & Hrest).
      exists (Nat.max fuel1 fuel2), captured2. intros fuel Hfuel.
      rewrite Hsend by lia. rewrite Hrest by lia. simpl.
      rewrite (entered_ext _ sm) by done.
      rewrite <- app_assoc. do 3 f_equal. apply last_cons_self.
    + destruct (IH st Hinert) as (fuel2 & captured2 & Hrest).
      exists fuel2, captured2. intros fuel Hfuel.
      rewrite (send_without_transition st event Htarget fuel).
      by apply Hrest.
Qed.
End StateMachineRuns.

(** ** Observable *)

Lemma update_all_spec {T Observer : Type}
    (values : list T) (o : Observable.t T Observer) :
  Observable.calls (update_all values o)
  = Observable.calls o
    ++ flat_map (fun v => map (fun obs => (obs, v)) (Observable.observers o))
                values /\
  Observable.observers (update_all values o) = Observable.observers o /\
  Observable.value (update_all values o) = List.last values (Observable.value o).
Proof.
  revert o. induction values as [|v values IH]; intros o.
  - simpl. by rewrite app_nil_r.
  - unfold update_all. cbn [fold_left].
    fold (update_all values (Observable.update v o)).
    destruct (IH (Observable.update v o)) as (Hcalls & Hobs & Hval).
    rewrite Hcalls, Hobs, Hval. simpl. rewrite <- app_assoc.
    split; [done|]. split; [done|]. apply last_cons_self.
Qed.

(** X15.  An update reaches every subscriber, in the order of subscription
    and once each: after subscribing [observer] and then updating with a
    sequence of values, the calls made are the earlier ones, the replay of
    the current value to [observer], and then for each value in turn one call
    per subscriber, [observer] last; the value held is the last one given. *)
Theorem updates_reach_every_subscriber {T Observer : Type}
    (observer : Observer) (values : list T) (o : Observable.t T Observer) :
  let o' := update_all values (Observable.subscribe observer o) in
  Observable.calls o'
  = Observable.calls o ++ [(observer, Observable.value o)]
    ++ flat_map (fun v =>
                   map (fun obs => (obs, v))
                       (Observable.observers o ++ [observer]))
                values /\
  Observable.observers o' = Observable.observers o ++ [observer] /\
  Observable.value o' = List.last values (Observable.value o).
Proof.
  intros o'. unfold o'.
  destruct (update_all_spec values (Observable.subscribe observer o))
    as (Hcalls & Hobs & Hval).
  rewrite Hcalls, Hobs, Hval. simpl. by rewrite <- app_assoc.
Qed.

(** X16.  [map] gives an observable that holds the transformed value but
    none of the subscribers: updates of the mapped observable call nobody. *)
Theorem map_forgets_subscribers {T U Observer : Type}
    (transform : T -> U) (values : list U) (o : Observable.t T Observer) :
  Observable.value (Observable.map transform o)
  = transform (Observable.value o) /\
  Observable.observers (update_all values (Observable.map transform o)) = [] /\
  Observable.calls (update_all values (Observable.map transform o)) = [].
Proof.
  split; [done|].
  destruct (update_all_spec values (Observable.map transform o))
    as (Hcalls & Hobs & _).
  rewrite Hcalls, Hobs. clear Hcalls Hobs. simpl. split; [done|].
  induction values as [|v values IH]; [done | exact IH].
Qed.

(** ** GenericContainer *)

Lemma container_map_loop {T U} (transform : T -> U) (l : list T)
    (acc : GenericContainer.t U) :
  GenericContainer.items
    (fold_left (fun result item =>
                  GenericContainer.append (transform item) result) l acc)
  = GenericContainer.items acc ++ map transform l.
Proof.
  revert acc. induction l as [|x l IH]; intros acc; simpl.
  - by rewrite app_nil_r.
  - rewrite IH. simpl. by rewrite <- app_assoc.
Qed.

Lemma container_filter_loop {T} (predicate : T -> bool) (l : list T)
    (acc : GenericContainer.t T) :
  GenericContainer.items
    (fold_left (fun result item =>
                  if predicate item
                  then GenericContainer.append item result else result) l acc)
  = GenericContainer.items acc ++ List.filter predicate l.
Proof.
  revert acc. induction l as [|x l IH]; intros acc; simpl.
  - by rewrite app_nil_r.
  - rewrite IH. destruct (predicate x); simpl; [|done].
    by rewrite <- app_assoc.
Qed.

(** X17.  The loops of [GenericContainer.map] and [filter] keep the order of
    the items: [map] holds the transformed items one for one, [filter] holds
    the items that satisfy the predicate, and so never more than before. *)
Theorem container_map_and_filter {T U} (transform : T -> U)
    (predicate : T -> bool) (c : GenericContainer.t T) :
  GenericContainer.items (GenericContainer.map transform c)
  = map transform (GenericContainer.items c) /\
  GenericContainer.count (GenericContainer.map transform c)
  = GenericContainer.count c /\
  GenericContainer.items (GenericContainer.filter predicate c)
  = List.filter predicate (GenericContainer.items c) /\
  GenericContainer.count (GenericContainer.filter predicate c)
  <= GenericContainer.count c.
Proof.
  unfold GenericContainer.map, GenericContainer.filter, GenericContainer.count.
  rewrite container_map_loop, container_filter_loop. simpl.
  rewrite length_map. repeat split.
  pose proof (List.filter_length_le predicate (GenericContainer.items c)).
  lia.
Qed.

(** X18.  The subscript of a [GenericContainer] is defined exactly on
    [0 ..< count]; after [append] the new item is read at the old [count] and
    every other index reads as before. *)
Theorem container_subscript_append {T} (item : T) (index : Z)
    (c : GenericContainer.t T) :
  (is_Some (GenericContainer.subscript index c)
   <-> 0 <= index < GenericContainer.count c) /\
  GenericContainer.count (GenericContainer.append item c)
  = GenericContainer.count c + 1 /\
  GenericContainer.subscript (GenericContainer.count c)
                             (GenericContainer.append item c) = Some item /\
  (index <> GenericContainer.count c ->
   GenericContainer.subscript index (GenericContainer.append item c)
   = GenericContainer.subscript index c).
Proof.
  unfold GenericContainer.subscript, GenericContainer.count,
    GenericContainer.append. simpl. rewrite length_app. simpl.
  set (n := length (GenericContainer.items c)).
  split; [|split; [lia|split]].
  - destruct (0 <=? index) eqn:H0; [apply Z.leb_le in H0 | apply Z.leb_gt in H0];
      simpl.
    + destruct (index <? Z.of_nat n) eqn:H1;
        [apply Z.ltb_lt in H1 | apply Z.ltb_ge in H1].
      * split; [lia|]. intros _. apply lookup_lt_is_Some. fold n. lia.
      * split; [by intros [? ?] | lia].
    + split; [by intros [? ?] | lia].
  - assert (H0 : (0 <=? Z.of_nat n) = true) by (apply Z.leb_le; lia).
    assert (H1 : (Z.of_nat n <? Z.of_nat (n + 1)) = true)
      by (apply Z.ltb_lt; lia).
    rewrite H0, H1, Nat2Z.id. simpl.
    rewrite lookup_app_r by (fold n; lia). fold n.
    by rewrite Nat.sub_diag.
  - intros Hne.
    destruct (0 <=? index) eqn:H0; [apply Z.leb_le in H0|done]. simpl.
    destruct (index <? Z.of_nat n) eqn:H1;
      [apply Z.ltb_lt in H1 | apply Z.ltb_ge in H1].
    + assert (H2 : (index <? Z.of_nat (n + 1)) = true)
        by (apply Z.ltb_lt; lia).
      rewrite H2. apply lookup_app_l. fold n. lia.
    + assert (H2 : (index <? Z.of_nat (n + 1)) = false)
        by (apply Z.ltb_ge; lia).
      by rewrite H2.
Qed.

(** ** Either *)

(** X19.  [Either] is right-biased and lawful: a left value passes through
    [map] and [flatMap] untouched, [flatMap] has [right] as unit on both
    sides and is associative, [map] is [flatMap] followed by [right], and
    [fold] after [map] is [fold] with the composed right branch. *)
Theorem either_laws {L R A B C : Type} (f : R -> Either.t L A)
    (g : A -> Either.t L B) (h : R -> A) (onLeft : L -> C) (onRight : A -> C)
    (l : L) (r : R) (e : Either.t L R) :
  Either.map h (Either.Left l) = Either.Left l /\
  Either.flatMap f (Either.Left l) = Either.Left l /\
  Either.flatMap f (Either.Right r) = f r /\
  Either.flatMap Either.Right e = e /\
  Either.flatMap g (Either.flatMap f e)
  = Either.flatMap (fun x => Either.flatMap g (f x)) e /\
  Either.map h e = Either.flatMap (fun x => Either.Right (h x)) e /\
  Either.fold onLeft onRight (Either.map h e)
  = Either.fold onLeft (fun x => onRight (h x)) e.
Proof. by destruct e. Qed.

(** ** Monoid *)

#[export] Instance String_LawfulMonoid : LawfulMonoid string.
Proof.
  split; simpl.
  - done.
  - intros a. induction a as [|c a IH]; [done|].
    change (String c (a +:+ "") = String c a). by rewrite IH.
  - intros a b c. induction a as [|x a IH]; [done|].
    change (String x ((a +:+ b) +:+ c) = String x (a +:+ (b +:+ c))).
    by rewrite IH.
Qed.

#[export] Instance Array_LawfulMonoid {A : Type} : LawfulMonoid (list A).
Proof.
  split; simpl.
  - done.
  - intros a. apply app_nil_r.
  - intros a b c. by rewrite <- app_assoc.
Qed.

Lemma monoid_fold_combine {M} `{LawfulMonoid M} (values : list M) (acc : M) :
  fold_left combine values acc = combine acc (monoid_reduce values).
Proof.
  unfold monoid_reduce. revert acc.
  induction values as [|v values IH]; intros acc; simpl.
  - by rewrite combine_empty_r.
  - rewrite (IH (combine acc v)), (IH (combine empty v)).
    by rewrite combine_empty_l, combine_assoc.
Qed.

(** X20.  For a monoid that meets its requirements (as [String] and [Array]
    do), [reduce] is compatible with concatenation of the input: the reduction
    of [xs + ys] is the combination of the two reductions; a single value
    reduces to itself. *)
Theorem monoid_reduce_append {M} `{LawfulMonoid M} (xs ys : list M) (x : M) :
  monoid_reduce (xs ++ ys) = combine (monoid_reduce xs) (monoid_reduce ys) /\
  monoid_reduce [x] = x.
Proof.
  split.
  - unfold monoid_reduce at 1. rewrite fold_left_app.
    fold (monoid_reduce xs). apply monoid_fold_combine.
  - unfold monoid_reduce. simpl. apply combine_empty_l.
Qed.

Example monoid_reduce_strings :
  monoid_reduce ["ab"; ""; "c"; "de"]%string = "abcde"%string /\
  monoid_reduce [[1; 2]; []; [3]] = [1; 2; 3].
Proof. split; reflexivity. Qed.

(** * Instances of the further properties *)

Lemma fibonacci_value_witness :
  10 <= 92 /\ Fibonacci.fibonacci 10 = Some (Returned 55).
Proof. split; [lia | apply (fibonacci_value 10); lia]. Defined.

Lemma fibonacci_overflows_witness :
  93 <= 93 /\ Fibonacci.fibonacci 93 = Some (Trapped ArithmeticOverflow).
Proof. split; [lia | apply (fibonacci_overflows 93); lia]. Defined.

Lemma generateSequence_progression_witness :
  HeavyProcessor.generateSequence 3 4 = Returned [3; 10; 17; 24].
Proof.
  apply (generateSequence_progression 3 4);
    unfold SwiftInt.min, SwiftInt.max; lia.
Defined.

Lemma complexCalculation_nonneg_witness :
  exists result,
    HeavyProcessor.complexCalculation 5 3 = Returned result /\ 0 <= result.
Proof.
  eexists. split; [vm_compute; reflexivity|].
  eapply (complexCalculation_nonneg 5 3); [lia | vm_compute; reflexivity].
Defined.

Lemma transform_output_shape_witness :
  DataTransformer.transform "AB" = Returned "0001"%string /\
  String.length "0001" = (2 * String.length "AB")%nat /\
  Forall (fun c => is_hex_digit c = true) (list_ascii_of_string "0001").
Proof.
  split; [reflexivity|].
  apply (transform_output_shape "AB" "0001"). reflexivity.
Defined.

Lemma getTimeAgo_buckets_witness :
  LibraryScreen.getTimeAgo 1700000000000 1699999880000
  = (pretty (120000 / 60000) +:+ "m ago")%string.
Proof.
  destruct (getTimeAgo_buckets 1700000000000 1699999880000)
    as (_ & Hminutes & _); [lia..|].
  apply Hminutes. lia.
Defined.

Lemma generateMatrix_symmetric_witness :
  exists matrix row1 row2 a b,
    generateMatrix id id id id id (fun x _ => x) 3 = Returned matrix /\
    matrix !! 1%nat = Some row1 /\ row1 !! 2%nat = Some a /\
    matrix !! 2%nat = Some row2 /\ row2 !! 1%nat = Some b /\
    a = b.
Proof.
  eexists _, _, _, _, _.
  split; [vm_compute; reflexivity|].
  split; [reflexivity|]. split; [reflexivity|].
  split; [reflexivity|]. split; [reflexivity|].
  eapply (generateMatrix_symmetric id id id id id (fun x _ => x) 3 _ 1 2);
    [vm_compute; reflexivity | reflexivity..].
Defined.

Lemma applyTransformation_injective_witness :
  ("a" +:+ "b")%string = "ab"%string.
Proof.
  apply (applyTransformation_injective ("a" +:+ "b") "ab"). reflexivity.
Defined.

Lemma one_recognition_witness :
  one_press_at_a_time ShazamScreen.initial sample_presses /\
  (length (ShazamApp.timers
             (ShazamScreen.app (ShazamScreen.run sample_presses))) <= 1)%nat.
Proof.
  assert (Hpaced : one_press_at_a_time ShazamScreen.initial sample_presses)
    by (simpl; repeat split; done).
  split; [exact Hpaced|].
  exact (proj1 (proj2 (proj2 (proj2
           (one_recognition_at_a_time sample_presses Hpaced))))).
Defined.

Lemma failed_stop_witness :
  ShazamApp.isRecording
    (ShazamScreen.app
       (ShazamScreen.run_from
          (ShazamScreen.step
             (ShazamScreen.run (sample_presses ++ [ShazamScreen.TimerFired 0]))
             (ShazamScreen.StopSettled 0 sample_failing_stop))
          [ShazamScreen.Pressed; ShazamScreen.StartSettled 0 sample_start]))
  = true.
Proof.
  destruct (failed_stop_leaves_screen_listening
              (sample_presses ++ [ShazamScreen.TimerFired 0])
              [ShazamScreen.Pressed; ShazamScreen.StartSettled 0 sample_start]
              0 sample_recording sample_failing_stop)
    as (_ & Hrec & _); [simpl; repeat split; done | reflexivity..|].
  exact Hrec.
Defined.

Lemma presses_in_the_await_window_witness :
  ShazamApp.timers
    (ShazamScreen.app
       (ShazamScreen.run_from
          (ShazamScreen.mkScreen
             (ShazamApp.requestPermissions true ShazamApp.initial) [])
          ([ShazamScreen.Pressed; ShazamScreen.Pressed]
           ++ settle_start sample_recording
           ++ settle_start sample_second_recording)))
  = [ShazamApp.mkTimer 3000 sample_recording;
     ShazamApp.mkTimer 3000 sample_second_recording].
Proof.
  apply (presses_in_the_await_window
           (ShazamApp.requestPermissions true ShazamApp.initial)
           [sample_recording; sample_second_recording]); reflexivity.
Defined.

(** Two presses in a row, and what follows: both recordings run, the first
    timer ends the session on the screen and shows a song while the second
    recording and its timer are still there. *)
Example double_tap :
  let s := ShazamScreen.run
             (sample_presses
              ++ [ShazamScreen.TimerFired 0;
                  ShazamScreen.StopSettled 0 sample_stop]
              ++ [ShazamScreen.Pressed; ShazamScreen.Pressed]
              ++ settle_start sample_recording
              ++ settle_start sample_second_recording
              ++ [ShazamScreen.TimerFired 0;
                  ShazamScreen.StopSettled 0 sample_stop]) in
  ShazamApp.isRecording (ShazamScreen.app s) = false /\
  ShazamApp.result (ShazamScreen.app s)
  = Some (ShazamApp.mkSong "Bad Guy" "Billie Eilish") /\
  ShazamApp.timers (ShazamScreen.app s)
  = [ShazamApp.mkTimer 3000 sample_second_recording].
Proof. vm_compute. repeat split. Qed.

Lemma processLargeDataset_overflows_witness :
  HeavyProcessor.processLargeDataset (SwiftInt.max - 100)
  = Trapped ArithmeticOverflow.
Proof.
  apply (processLargeDataset_overflows (SwiftInt.max - 100)).
  unfold SwiftInt.max. lia.
Defined.

Lemma transform_returns_witness :
  DataTransformer.transform "AB" = Returned "0001"%string.
Proof.
  apply (transform_returns "AB"); [discriminate | vm_compute; discriminate].
Defined.

Lemma generateMatrix_square_witness :
  exists matrix,
    generateMatrix id id id id id (fun x _ => x) 3 = Returned matrix /\
    length matrix = 3%nat /\
    Forall (fun row => length row = 3%nat) matrix.
Proof. apply (generateMatrix_square id id id id id (fun x _ => x) 3). lia. Defined.

Lemma generateMatrix_negative_witness :
  generateMatrix id id id id id (fun x _ => x) (-1) = Trapped InvalidRange.
Proof. apply (generateMatrix_negative id id id id id (fun x _ => x) (-1)). lia. Defined.

Lemma monoid_reduce_append_witness :
  monoid_reduce (["ab"%string; "c"%string] ++ ["de"%string])
  = combine (monoid_reduce ["ab"%string; "c"%string])
            (monoid_reduce ["de"%string]).
Proof.
  apply (proj1 (monoid_reduce_append (M:=string) ["ab"%string; "c"%string]
                                     ["de"%string] EmptyString)).
Defined.

Lemma send_all_witness :
  exists fuel0 captured',
    forall fuel, (fuel0 <= fuel)%nat ->
      send_all fuel ["stop"; "start"; "start"; "more"]%string sample_machine
      = Some (StateMachine.mkStore
                (StateMachine.mk 2%nat (StateMachine.transitions sample_table)
                                 [counting_observer]
                                 [(counting_observer, 0%nat);
                                  (counting_observer, 1%nat);
                                  (counting_observer, 2%nat)])
                captured').
Proof.
  apply (send_all_follows_the_table sample_machine
           ["stop"; "start"; "start"; "more"]%string).
  constructor; [|constructor]. intros state value. exact I.
Defined.
